(** * A Bloom filter for password uniqueness: [blum_filter.py]

    Shallow embedding of the [BloomFilter] class and of
    [check_password_uniqueness], and the properties of its specification.

    Modelling decisions.
    - A Python [str] is the list of its Unicode code points.
    - Python integers are [Z]; [%] is floor modulo, which is [Z.modulo]
      for a non-zero divisor, and raises [ZeroDivisionError] for zero.
    - The [bitarray] is a [list bool]; item access follows Python's
      indexing (negative indices count from the end, anything outside
      raises [IndexError]).
    - A method body is a computation in a state-and-exception monad over
      the filter object: an exception leaves the mutations made so far.
    - A candidate password is [None], a [str], an [int] or a [list]; the
      result [dict] is an association list in insertion order, keyed by
      the hashable ones.  Assigning under an unhashable value raises
      [TypeError].
    - [mmh3.hash] belongs to an external package. The development is
      parametric in it (a [Variable] of a [Section]); it is taken to be a
      total function of the string and the seed.  [Murmur3] gives the
      32-bit MurmurHash3 as one instance, used to run the code on
      concrete inputs. *)

From Stdlib Require Import ZArith List Bool Lia String Ascii.
From stdpp Require Import base list.

Local Open Scope Z_scope.

(** ** Python values *)

(** A [str]: its code points. *)
Definition pystr := list Z.

(** A string literal of ASCII characters as a [str]. *)
Definition str (s : String.string) : pystr :=
  map (fun a => Z.of_N (N_of_ascii a)) (list_ascii_of_string s).

(** The values a candidate list holds in this development: [None], a
    [str], an [int], and a [list] (a value that cannot be hashed). *)
#[warnings="-register-all"]
Inductive pyval :=
| PyNone
| PyStr (s : pystr)
| PyInt (z : Z)
| PyList (items : list pyval).

(** The hashable values, as dictionary keys.  No two keys of different
    kinds compare equal in Python ([None], [str], [int]). *)
Inductive key :=
| KNone
| KStr (s : pystr)
| KInt (z : Z).

#[global] Instance key_eq_dec : EqDecision key.
Proof. solve_decision. Defined.

Definition val_of_key (k : key) : pyval :=
  match k with
  | KNone => PyNone
  | KStr s => PyStr s
  | KInt z => PyInt z
  end.

Inductive exception :=
| ValueError
| ZeroDivisionError
| IndexError
| TypeError.

Inductive result (A : Type) :=
| Ok (a : A)
| Raise (e : exception).
Arguments Ok {A} a.
Arguments Raise {A} e.

(** [hash(v)] as far as a dictionary needs it: the key, or [TypeError]
    for an unhashable value. *)
Definition key_of (v : pyval) : result key :=
  match v with
  | PyNone => Ok KNone
  | PyStr s => Ok (KStr s)
  | PyInt z => Ok (KInt z)
  | PyList _ => Raise TypeError
  end.

(** ** [str.strip] *)

(** [str.isspace] on one code point (CPython's [_PyUnicode_IsWhitespace]). *)
Definition isspace (c : Z) : bool :=
  ((9 <=? c) && (c <=? 13)) || ((28 <=? c) && (c <=? 32))
  || (c =? 133) || (c =? 160) || (c =? 5760)
  || ((8192 <=? c) && (c <=? 8202))
  || (c =? 8232) || (c =? 8233) || (c =? 8239) || (c =? 8287)
  || (c =? 12288).

Fixpoint lstrip (s : pystr) : pystr :=
  match s with
  | [] => []
  | c :: s' => if isspace c then lstrip s' else s
  end.

Definition rstrip (s : pystr) : pystr := rev (lstrip (rev s)).

Definition strip (s : pystr) : pystr := rstrip (lstrip s).

(** Truth value of a [str]: non-empty. *)
Definition str_bool (s : pystr) : bool :=
  match s with [] => false | _ => true end.

(** ** The filter object and the monad of its methods *)

Record BloomFilter := mkBloomFilter {
  size : Z;
  num_hashes : Z;
  bit_array : list bool
}.

(** A computation over the filter: the new state, and a value or the
    exception raised. *)
Definition M (A : Type) := BloomFilter -> BloomFilter * result A.

Definition ret {A} (a : A) : M A := fun bf => (bf, Ok a).

Definition bind {A B} (m : M A) (f : A -> M B) : M B :=
  fun bf =>
    match m bf with
    | (bf', Ok a) => f a bf'
    | (bf', Raise e) => (bf', Raise e)
    end.

Notation "'let*' x ':=' m 'in' k" := (bind m (fun x => k))
  (at level 10, x name, m at level 100, k at level 200).
Notation "'do' m 'then' k" := (bind m (fun _ => k))
  (at level 10, m at level 100, k at level 200).

(** Lifting a pure fallible value. *)
Definition lift {A} (r : result A) : M A := fun bf => (bf, r).

Definition get_size : M Z := fun bf => (bf, Ok (size bf)).
Definition get_num_hashes : M Z := fun bf => (bf, Ok (num_hashes bf)).

(** Python index normalisation against a length [n]. *)
Definition norm_index (n i : Z) : result nat :=
  if (0 <=? i) && (i <? n) then Ok (Z.to_nat i)
  else if (- n <=? i) && (i <? 0) then Ok (Z.to_nat (i + n))
  else Raise IndexError.

(** [self.bit_array[i]] *)
Definition bit_getitem (i : Z) : M bool := fun bf =>
  match norm_index (Z.of_nat (length (bit_array bf))) i with
  | Ok n => (bf, Ok (default false (bit_array bf !! n)))
  | Raise e => (bf, Raise e)
  end.

(** [self.bit_array[i] = 1] *)
Definition bit_setitem (i : Z) : M unit := fun bf =>
  match norm_index (Z.of_nat (length (bit_array bf))) i with
  | Ok n =>
      (mkBloomFilter (size bf) (num_hashes bf) (<[n := true]> (bit_array bf)),
       Ok tt)
  | Raise e => (bf, Raise e)
  end.

(** [a % b] *)
Definition py_mod (a b : Z) : result Z :=
  if b =? 0 then Raise ZeroDivisionError else Ok (a mod b).

(** [range(n)] *)
Definition range (n : Z) : list Z :=
  map Z.of_nat (seq 0 (Z.to_nat n)).

(** A list comprehension [[f x for x in l]]. *)
Fixpoint comprehension {A B} (f : A -> M B) (l : list A) : M (list B) :=
  match l with
  | [] => ret []
  | x :: l' =>
      let* y := f x in
      let* ys := comprehension f l' in
      ret (y :: ys)
  end.

(** A [for] loop whose body returns nothing. *)
Fixpoint for_each {A} (l : list A) (body : A -> M unit) : M unit :=
  match l with
  | [] => ret tt
  | x :: l' => do body x then for_each l' body
  end.

(** [all(f x for x in l)]: stops at the first false element. *)
Fixpoint all_of {A} (f : A -> M bool) (l : list A) : M bool :=
  match l with
  | [] => ret true
  | x :: l' => let* b := f x in if b then all_of f l' else ret false
  end.

(** [BloomFilter(size, num_hashes)]: [bitarray(size)] raises [ValueError]
    for a negative length; [setall(0)] clears every bit. *)
Definition BloomFilter_init (size num_hashes : Z) : result BloomFilter :=
  if size <? 0 then Raise ValueError
  else Ok (mkBloomFilter size num_hashes (replicate (Z.to_nat size) false)).

(** ** The result dictionary *)

Inductive status :=
| Invalid      (* "некоректний пароль" *)
| AlreadyUsed  (* "вже використаний" *)
| Unique.      (* "унікальний" *)

(** A [dict] in insertion order. *)
Definition dict := list (key * status).

(** [d[k] = v] on a key: a present key keeps its place and takes the new
    value, a new key goes last. *)
Fixpoint dict_set (d : dict) (k : key) (v : status) : dict :=
  match d with
  | [] => [(k, v)]
  | (k', v') :: d' =>
      if decide (k' = k) then (k', v) :: d' else (k', v') :: dict_set d' k v
  end.

(** [d[x] = v] for any value [x]. *)
Definition dict_setitem (d : dict) (x : pyval) (v : status) : result dict :=
  match key_of x with
  | Ok k => Ok (dict_set d k v)
  | Raise e => Raise e
  end.

Fixpoint dict_get (d : dict) (k : key) : option status :=
  match d with
  | [] => None
  | (k', v') :: d' => if decide (k' = k) then Some v' else dict_get d' k
  end.

(** ** MurmurHash3, 32 bits: an instance of [mmh3.hash]

    [mmh3.hash(key, seed)] hashes the UTF-8 encoding of [key] with
    MurmurHash3_x86_32 and returns the value as a signed 32-bit integer.
    The seed is read as an unsigned 32-bit integer.  A [str] that UTF-8
    cannot encode (a lone surrogate) is outside this model: the encoder
    below gives it three bytes like any other code point of its range. *)
Module Murmur3.

Definition u32 (x : Z) : Z := x mod 2^32.

Definition rotl32 (x r : Z) : Z :=
  u32 (Z.lor (Z.shiftl x r) (Z.shiftr x (32 - r))).

Definition utf8_point (c : Z) : list Z :=
  if c <? 128 then [c]
  else if c <? 2048 then
    [Z.lor 192 (Z.shiftr c 6); Z.lor 128 (Z.land c 63)]
  else if c <? 65536 then
    [Z.lor 224 (Z.shiftr c 12); Z.lor 128 (Z.land (Z.shiftr c 6) 63);
     Z.lor 128 (Z.land c 63)]
  else
    [Z.lor 240 (Z.shiftr c 18); Z.lor 128 (Z.land (Z.shiftr c 12) 63);
     Z.lor 128 (Z.land (Z.shiftr c 6) 63); Z.lor 128 (Z.land c 63)].

Definition utf8 (s : pystr) : list Z := flat_map utf8_point s.

Definition c1 : Z := 3432918353. (* 0xcc9e2d51 *)
Definition c2 : Z := 461845907.  (* 0x1b873593 *)

Definition mix_k (k : Z) : Z := u32 (rotl32 (u32 (k * c1)) 15 * c2).

Definition mix_h (h k : Z) : Z :=
  u32 (rotl32 (Z.lxor h (mix_k k)) 13 * 5 + 3864292196). (* 0xe6546b64 *)

(** The body: whole little-endian blocks of four bytes, then the tail of
    at most three. *)
Fixpoint blocks (h : Z) (bytes : list Z) : Z :=
  match bytes with
  | b0 :: b1 :: b2 :: b3 :: rest =>
      blocks
        (mix_h h (Z.lor (Z.lor b0 (Z.shiftl b1 8))
                        (Z.lor (Z.shiftl b2 16) (Z.shiftl b3 24))))
        rest
  | [b0; b1; b2] =>
      Z.lxor h (mix_k (Z.lor b0 (Z.lor (Z.shiftl b1 8) (Z.shiftl b2 16))))
  | [b0; b1] => Z.lxor h (mix_k (Z.lor b0 (Z.shiftl b1 8)))
  | [b0] => Z.lxor h (mix_k b0)
  | [] => h
  end.

Definition fmix32 (h : Z) : Z :=
  let h := Z.lxor h (Z.shiftr h 16) in
  let h := u32 (h * 2246822507) in (* 0x85ebca6b *)
  let h := Z.lxor h (Z.shiftr h 13) in
  let h := u32 (h * 3266489909) in (* 0xc2b2ae35 *)
  Z.lxor h (Z.shiftr h 16).

Definition hash_bytes (bytes : list Z) (seed : Z) : Z :=
  fmix32 (Z.lxor (blocks (u32 seed) bytes) (u32 (Z.of_nat (length bytes)))).

Definition signed32 (x : Z) : Z := if x <? 2^31 then x else x - 2^32.

Definition hash (item : pystr) (seed : Z) : Z :=
  signed32 (hash_bytes (utf8 item) seed).

End Murmur3.

(** ** Operations applied in sequence *)

Inductive op :=
| OpAdd (item : pystr)
| OpCheck (item : pystr)
| OpClassify (passwords : list pyval).

(** A comprehension whose element expression has no effect on the state. *)
Fixpoint traverse {A B} (f : A -> result B) (l : list A) : result (list B) :=
  match l with
  | [] => Ok []
  | x :: l' =>
      match f x with
      | Ok y =>
          match traverse f l' with
          | Ok ys => Ok (y :: ys)
          | Raise e => Raise e
          end
      | Raise e => Raise e
      end
  end.

(** ** [hyper_log_log.py]: the exact count *)

(** [set_count(ip_addresses)], that is [len(set(ip_addresses))]: building
    the set hashes every element in turn, the length counts the distinct
    ones. *)
Definition set_count (ip_addresses : list pyval) : result nat :=
  match traverse key_of ip_addresses with
  | Ok ks => Ok (length (remove_dups ks))
  | Raise e => Raise e
  end.

(** The filter of [__main__], [BloomFilter(size=1000, num_hashes=3)], as
    the constructor leaves it. *)
Definition main_filter : BloomFilter :=
  mkBloomFilter 1000 3 (replicate 1000 false).

(** ** Relations and views used by the properties *)

(** The keys of a [dict], in its order. *)
Definition keys (d : dict) : list key := map fst d.

(** The elements of [ks] not in [seen], each at its first occurrence. *)
Fixpoint first_occurrences (seen ks : list key) : list key :=
  match ks with
  | [] => []
  | k :: ks' =>
      if decide (k ∈ seen) then first_occurrences seen ks'
      else k :: first_occurrences (k :: seen) ks'
  end.

(** The candidates that pass the validation of the classifier: strings
    with a character that is not whitespace. *)
Fixpoint valid_passwords (cs : list pyval) : list pystr :=
  match cs with
  | [] => []
  | PyStr s :: cs' =>
      if forallb isspace s then valid_passwords cs'
      else s :: valid_passwords cs'
  | _ :: cs' => valid_passwords cs'
  end.

(** A computation keeps the relation [R] between the state it starts in
    and the state it leaves, whatever its outcome. *)
Definition respects (R : BloomFilter -> BloomFilter -> Prop) {A} (m : M A)
  : Prop :=
  forall bf, R bf (fst (m bf)).

Section Filter.

(** [mmh3.hash(item, seed)] *)
Variable mmh3_hash : pystr -> Z -> Z.

(** [BloomFilter._hashes] *)
Definition _hashes (item : pystr) : M (list Z) :=
  let* n := get_num_hashes in
  comprehension
    (fun seed =>
       let* sz := get_size in lift (py_mod (mmh3_hash item seed) sz))
    (range n).

(** [BloomFilter.add] *)
Definition add (item : pystr) : M unit :=
  let* hs := _hashes item in
  for_each hs (fun hash_value => bit_setitem hash_value).

(** [BloomFilter.check] *)
Definition check (item : pystr) : M bool :=
  let* hs := _hashes item in
  all_of (fun hash_value => bit_getitem hash_value) hs.

(** The body of the loop of [check_password_uniqueness]. *)
Definition classify_body (results : dict) (password : pyval) : M dict :=
  match password with
  | PyStr s =>
      if negb (str_bool (strip s)) then
        lift (dict_setitem results password Invalid)
      else
        let* used := check s in
        if used then lift (dict_setitem results password AlreadyUsed)
        else
          let* results' := lift (dict_setitem results password Unique) in
          do add s then
          ret results'
  | _ => lift (dict_setitem results password Invalid)
  end.

Fixpoint classify_loop (results : dict) (passwords : list pyval) : M dict :=
  match passwords with
  | [] => ret results
  | password :: rest =>
      let* results' := classify_body results password in
      classify_loop results' rest
  end.

(** [check_password_uniqueness(bloom_filter, passwords)] *)
Definition check_password_uniqueness (passwords : list pyval) : M dict :=
  classify_loop [] passwords.


(** The state left by an operation, whether it returned or raised. *)
Definition run_op (o : op) (bf : BloomFilter) : BloomFilter :=
  match o with
  | OpAdd item => fst (add item bf)
  | OpCheck item => fst (check item bf)
  | OpClassify passwords => fst (check_password_uniqueness passwords bf)
  end.

Definition run_ops (ops : list op) (bf : BloomFilter) : BloomFilter :=
  fold_left (fun bf o => run_op o bf) ops bf.

(** *** Validly constructed filters *)

(** What the constructor establishes for positive parameters, and what
    every operation keeps. *)
Definition well_formed (bf : BloomFilter) : Prop :=
  0 < size bf /\ 0 < num_hashes bf /\
  Z.of_nat (length (bit_array bf)) = size bf.

(** The bit array with the positions [ns] set. *)
Definition set_bits (bits : list bool) (ns : list nat) : list bool :=
  fold_left (fun b n => <[n := true]> b) ns bits.

(** The positions a run of item assignments reaches in an array of
    length [len]: those before the first index that is out of range. *)
Fixpoint norm_prefix (len : Z) (hs : list Z) : list nat :=
  match hs with
  | [] => []
  | h :: hs' =>
      match norm_index len h with
      | Ok n => n :: norm_prefix len hs'
      | Raise _ => []
      end
  end.

(** The number of bits set. *)
Fixpoint count_ones (bits : list bool) : nat :=
  match bits with
  | [] => O
  | b :: bits' => ((if b then 1 else 0) + count_ones bits')%nat
  end.

(** [bf'] is [bf] with possibly more bits set: same parameters, same
    length, and every bit set in [bf] is set in [bf']. *)
Definition grows (bf bf' : BloomFilter) : Prop :=
  size bf' = size bf /\ num_hashes bf' = num_hashes bf /\
  length (bit_array bf') = length (bit_array bf) /\
  forall i : nat, bit_array bf !! i = Some true ->
                  bit_array bf' !! i = Some true.

(** The state after adding the items [ys] one after the other. *)
Definition add_all (ys : list pystr) (bf : BloomFilter) : BloomFilter :=
  fold_left (fun b y => fst (add y b)) ys bf.

(** *** The specification's words (sections 4.1 to 4.3) *)

(** The bit at position [i] is set. *)
Definition bit_at (bf : BloomFilter) (i : Z) : bool :=
  default false (bit_array bf !! Z.to_nat i).

(** Section 4.1: for seed in [0 .. numHashes-1], the hash of
    [(item, seed)] reduced modulo [size]. *)
Definition indices (bf : BloomFilter) (item : pystr) : list Z :=
  map (fun seed => mmh3_hash item seed mod size bf) (range (num_hashes bf)).

(** Section 4.2: true iff all indices of the item are set. *)
Definition mightContain (bf : BloomFilter) (item : pystr) : bool :=
  forallb (bit_at bf) (indices bf item).

(** Section 4.2: sets each bit of the item's indices to 1. *)
Definition with_item (bf : BloomFilter) (item : pystr) : BloomFilter :=
  mkBloomFilter (size bf) (num_hashes bf)
    (set_bits (bit_array bf) (map Z.to_nat (indices bf item))).

(** Section 4.3, step 1: not a string, or empty or whitespace-only. *)
Definition invalid_candidate (c : pyval) : bool :=
  match c with
  | PyStr s => forallb isspace s
  | _ => true
  end.

(** Section 4.3 as a fold over the filter, in input order: the final
    filter and the classification of every candidate. *)
Fixpoint classify_spec (bf : BloomFilter) (candidates : list pyval)
  : BloomFilter * list status :=
  match candidates with
  | [] => (bf, [])
  | c :: rest =>
      match c with
      | PyStr s =>
          if invalid_candidate c then
            let (bf', sts) := classify_spec bf rest in (bf', Invalid :: sts)
          else if mightContain bf s then
            let (bf', sts) := classify_spec bf rest in
            (bf', AlreadyUsed :: sts)
          else
            let (bf', sts) := classify_spec (with_item bf s) rest in
            (bf', Unique :: sts)
      | _ =>
          let (bf', sts) := classify_spec bf rest in (bf', Invalid :: sts)
      end
  end.

(** The classification of a candidate by a filter that reports every
    item as present. *)
Definition known_status (c : pyval) : status :=
  if invalid_candidate c then Invalid else AlreadyUsed.

(** The classification of a candidate against a given filter state. *)
Definition status_of (bf : BloomFilter) (c : pyval) : status :=
  match c with
  | PyStr s =>
      if forallb isspace s then Invalid
      else if mightContain bf s then AlreadyUsed else Unique
  | _ => Invalid
  end.

(** A candidate that is not a non-empty string after trimming. *)
Definition blank_or_not_str (c : pyval) : Prop :=
  match c with
  | PyStr s => strip s = []
  | _ => True
  end.

(** The mapping keyed by candidate that holds the recorded entries, each
    written in turn. *)
Definition recorded (d : dict) (ks : list key) (sts : list status) : dict :=
  fold_left (fun d e => dict_set d (fst e) (snd e)) (zip ks sts) d.

(** ** Properties *)

(** *** Computations that keep a relation between the states *)

Section Respects.

Variable R : BloomFilter -> BloomFilter -> Prop.
Hypothesis R_refl : forall bf, R bf bf.
Hypothesis R_trans : forall a b c, R a b -> R b c -> R a c.

Lemma respects_ret {A} (a : A) : respects R (ret a).
Proof. intros bf. apply R_refl. Qed.

Lemma respects_lift {A} (r : result A) : respects R (lift r).
Proof. intros bf. apply R_refl. Qed.

Lemma respects_get_size : respects R get_size.
Proof. intros bf. apply R_refl. Qed.

Lemma respects_get_num_hashes : respects R get_num_hashes.
Proof. intros bf. apply R_refl. Qed.

Lemma respects_bit_getitem i : respects R (bit_getitem i).
Proof.
  intros bf. unfold bit_getitem.
  destruct (norm_index _ i); apply R_refl.
Qed.

Lemma respects_bind {A B} (m : M A) (f : A -> M B) :
  respects R m -> (forall a, respects R (f a)) -> respects R (bind m f).
Proof.
  intros Hm Hf bf. unfold bind.
  specialize (Hm bf). destruct (m bf) as [bf' [a | e]]; simpl in *.
  - eapply R_trans; [exact Hm | apply Hf].
  - exact Hm.
Qed.

Lemma respects_comprehension {A B} (f : A -> M B) l :
  (forall x, respects R (f x)) -> respects R (comprehension f l).
Proof.
  intros Hf. induction l as [| x l IH]; simpl.
  - apply respects_ret.
  - apply respects_bind; [apply Hf |]. intros y.
    apply respects_bind; [exact IH |]. intros ys. apply respects_ret.
Qed.

Lemma respects_for_each {A} (body : A -> M unit) l :
  (forall x, respects R (body x)) -> respects R (for_each l body).
Proof.
  intros Hb. induction l as [| x l IH]; simpl.
  - apply respects_ret.
  - apply respects_bind; [apply Hb | intros _; exact IH].
Qed.

Lemma respects_all_of {A} (f : A -> M bool) l :
  (forall x, respects R (f x)) -> respects R (all_of f l).
Proof.
  intros Hf. induction l as [| x l IH]; simpl.
  - apply respects_ret.
  - apply respects_bind; [apply Hf |].
    intros [|]; [exact IH | apply respects_ret].
Qed.

Lemma respects_hashes item : respects R (_hashes item).
Proof.
  unfold _hashes.
  apply respects_bind; [apply respects_get_num_hashes |]. intros n.
  apply respects_comprehension. intros seed.
  apply respects_bind; [apply respects_get_size |]. intros sz.
  apply respects_lift.
Qed.

Lemma respects_check item : respects R (check item).
Proof.
  unfold check.
  apply respects_bind; [apply respects_hashes |]. intros hs.
  apply respects_all_of. intros h. apply respects_bit_getitem.
Qed.

Hypothesis R_setitem : forall i, respects R (bit_setitem i).

Lemma respects_add item : respects R (add item).
Proof.
  unfold add.
  apply respects_bind; [apply respects_hashes |]. intros hs.
  apply respects_for_each. exact R_setitem.
Qed.

Lemma respects_classify_body results password :
  respects R (classify_body results password).
Proof.
  unfold classify_body.
  destruct password as [| s | z | items]; try apply respects_lift.
  destruct (negb (str_bool (strip s))); [apply respects_lift |].
  apply respects_bind; [apply respects_check |].
  intros [|]; [apply respects_lift |].
  apply respects_bind; [apply respects_lift |]. intros results'.
  apply respects_bind; [apply respects_add |]. intros _.
  apply respects_ret.
Qed.

Lemma respects_classify_loop passwords :
  forall results, respects R (classify_loop results passwords).
Proof.
  induction passwords as [| p rest IH]; intros results; simpl.
  - apply respects_ret.
  - apply respects_bind; [apply respects_classify_body | exact IH].
Qed.

Lemma respects_run_op o bf : R bf (run_op o bf).
Proof.
  destruct o as [item | item | passwords]; simpl.
  - apply respects_add.
  - apply respects_check.
  - apply respects_classify_loop.
Qed.

Lemma respects_run_ops ops : forall bf, R bf (run_ops ops bf).
Proof.
  unfold run_ops. induction ops as [| o ops IH]; intros bf; simpl.
  - apply R_refl.
  - eapply R_trans; [apply respects_run_op | apply IH].
Qed.

End Respects.


(** *** The bit array under item assignment *)

Lemma set_bits_length ns : forall bits,
  length (set_bits bits ns) = length bits.
Proof.
  unfold set_bits. induction ns as [| n ns IH]; intros bits; simpl.
  - reflexivity.
  - rewrite IH. apply length_insert.
Qed.

Lemma set_bits_lookup ns : forall (bits : list bool) (i : nat),
  set_bits bits ns !! i =
    if decide (i ∈ ns /\ (i < length bits)%nat) then Some true
    else bits !! i.
Proof.
  unfold set_bits. induction ns as [| n ns IH]; intros bits i; simpl.
  - reflexivity.
  - rewrite IH, length_insert.
    destruct (decide (i = n)) as [-> | Hne].
    + destruct (decide (n < length bits)%nat) as [Hlt | Hge].
      * rewrite list_lookup_insert_eq by exact Hlt.
        rewrite (decide_True (P := n ∈ n :: ns /\ (n < length bits)%nat))
          by (split; [left | exact Hlt]).
        destruct (decide _); reflexivity.
      * rewrite list_insert_ge by lia.
        rewrite !decide_False by tauto. reflexivity.
    + rewrite list_lookup_insert_ne by congruence.
      destruct (decide (i ∈ ns /\ (i < length bits)%nat)) as [H1 | H1],
               (decide (i ∈ n :: ns /\ (i < length bits)%nat)) as [H2 | H2];
        try reflexivity; exfalso.
      * apply H2. split; [right |]; tauto.
      * destruct H2 as [H2 ?]. apply H1. split; [| assumption].
        inversion H2; subst; [congruence | assumption].
Qed.

Lemma set_bits_idem ns (bits : list bool) :
  set_bits (set_bits bits ns) ns = set_bits bits ns.
Proof.
  apply list_eq. intros i.
  rewrite (set_bits_lookup ns (set_bits bits ns)), set_bits_length.
  case_decide as H; [| reflexivity].
  rewrite set_bits_lookup. rewrite decide_True by exact H. reflexivity.
Qed.

(** A run of item assignments: the reached positions are set, the other
    attributes stay. *)
Lemma for_each_setitem_state hs : forall bf,
  fst (for_each hs bit_setitem bf) =
    mkBloomFilter (size bf) (num_hashes bf)
      (set_bits (bit_array bf)
         (norm_prefix (Z.of_nat (length (bit_array bf))) hs)).
Proof.
  induction hs as [| h hs IH]; intros [sz nh bits]; simpl.
  - reflexivity.
  - unfold bind, bit_setitem; simpl.
    destruct (norm_index (Z.of_nat (length bits)) h) as [n | e]; simpl.
    + rewrite IH; simpl. rewrite length_insert. reflexivity.
    + reflexivity.
Qed.

(** Its outcome depends on the indices and on the length only. *)
Lemma for_each_setitem_outcome hs : forall bf bf',
  length (bit_array bf') = length (bit_array bf) ->
  snd (for_each hs bit_setitem bf') = snd (for_each hs bit_setitem bf).
Proof.
  induction hs as [| h hs IH]; intros bf bf' Hlen; simpl.
  - reflexivity.
  - unfold bind, bit_setitem. rewrite Hlen.
    destruct (norm_index (Z.of_nat (length (bit_array bf))) h) as [n | e];
      simpl; [| reflexivity].
    apply IH. simpl. rewrite !length_insert. exact Hlen.
Qed.

Lemma norm_index_in_range len h :
  0 <= h < len -> norm_index len h = Ok (Z.to_nat h).
Proof.
  intros H. unfold norm_index.
  destruct (Z.leb_spec 0 h), (Z.ltb_spec h len); simpl; try lia.
  reflexivity.
Qed.

Lemma norm_prefix_in_range len hs :
  Forall (fun h => 0 <= h < len) hs -> norm_prefix len hs = map Z.to_nat hs.
Proof.
  induction 1 as [| h hs Hh _ IH]; simpl.
  - reflexivity.
  - rewrite norm_index_in_range by exact Hh. rewrite IH. reflexivity.
Qed.

Lemma for_each_setitem_ok hs : forall bf,
  Forall (fun h => 0 <= h < Z.of_nat (length (bit_array bf))) hs ->
  snd (for_each hs bit_setitem bf) = Ok tt.
Proof.
  induction hs as [| h hs IH]; intros bf Hhs; simpl.
  - reflexivity.
  - inversion Hhs as [| ? ? Hh Hrest]; subst.
    unfold bind, bit_setitem. rewrite norm_index_in_range by exact Hh.
    apply IH. simpl. rewrite length_insert. exact Hrest.
Qed.

Lemma all_of_getitem hs bf :
  Forall (fun h => 0 <= h < Z.of_nat (length (bit_array bf))) hs ->
  all_of bit_getitem hs bf = (bf, Ok (forallb (bit_at bf) hs)).
Proof.
  induction 1 as [| h hs Hh _ IH]; simpl.
  - reflexivity.
  - unfold bind, bit_getitem. rewrite norm_index_in_range by exact Hh.
    fold (bit_at bf h). destruct (bit_at bf h); simpl.
    + exact IH.
    + reflexivity.
Qed.

(** *** The hash family *)

Lemma comprehension_traverse {A B} (f : A -> M B) (h : A -> result B) l bf :
  (forall x, f x bf = (bf, h x)) ->
  comprehension f l bf = (bf, traverse h l).
Proof.
  intros Hf. induction l as [| x l IH]; simpl.
  - reflexivity.
  - unfold bind at 1. rewrite Hf.
    destruct (h x) as [y | e]; [| reflexivity].
    unfold bind at 1. rewrite IH.
    destruct (traverse h l); reflexivity.
Qed.

Lemma hashes_pure item bf :
  _hashes item bf =
    (bf, traverse (fun seed => py_mod (mmh3_hash item seed) (size bf))
           (range (num_hashes bf))).
Proof.
  unfold _hashes, bind at 1, get_num_hashes.
  apply comprehension_traverse. intros seed. reflexivity.
Qed.

Lemma traverse_ok {A B} (f : A -> result B) (g : A -> B) l :
  (forall x, f x = Ok (g x)) -> traverse f l = Ok (map g l).
Proof.
  intros H. induction l as [| x l IH]; simpl.
  - reflexivity.
  - rewrite H, IH. reflexivity.
Qed.

Lemma hashes_ok item bf :
  size bf <> 0 -> _hashes item bf = (bf, Ok (indices bf item)).
Proof.
  intros Hsz. rewrite hashes_pure. f_equal. unfold indices.
  apply traverse_ok. intros seed. unfold py_mod.
  destruct (Z.eqb_spec (size bf) 0); [contradiction | reflexivity].
Qed.

Lemma indices_length bf item :
  Z.of_nat (length (indices bf item)) = Z.max 0 (num_hashes bf).
Proof.
  unfold indices, range. rewrite !length_map, length_seq. lia.
Qed.

Lemma indices_in_range bf item :
  0 < size bf -> Forall (fun i => 0 <= i < size bf) (indices bf item).
Proof.
  intros Hsz. unfold indices. apply Forall_forall. intros i Hi.
  apply list_elem_of_In, in_map_iff in Hi. destruct Hi as [seed [<- _]].
  apply Z.mod_pos_bound. exact Hsz.
Qed.

(** *** The methods on a validly constructed filter *)

Lemma add_wf bf item :
  well_formed bf -> add item bf = (with_item bf item, Ok tt).
Proof.
  intros (Hsz & Hnh & Hlen). unfold add, bind.
  rewrite hashes_ok by lia.
  assert (Hr : Forall (fun h => 0 <= h < Z.of_nat (length (bit_array bf)))
                 (indices bf item)).
  { rewrite Hlen. apply indices_in_range. exact Hsz. }
  rewrite (surjective_pairing (for_each _ _ _)).
  rewrite for_each_setitem_state, for_each_setitem_ok by exact Hr.
  rewrite norm_prefix_in_range by exact Hr. reflexivity.
Qed.

Lemma add_pure item bf :
  add item bf =
    match traverse (fun seed => py_mod (mmh3_hash item seed) (size bf))
            (range (num_hashes bf)) with
    | Ok hs => for_each hs bit_setitem bf
    | Raise e => (bf, Raise e)
    end.
Proof. unfold add, bind. rewrite hashes_pure. reflexivity. Qed.

Lemma check_wf bf item :
  well_formed bf -> check item bf = (bf, Ok (mightContain bf item)).
Proof.
  intros (Hsz & Hnh & Hlen). unfold check, bind.
  rewrite hashes_ok by lia. apply all_of_getitem.
  rewrite Hlen. apply indices_in_range. exact Hsz.
Qed.

Lemma with_item_wf bf item : well_formed bf -> well_formed (with_item bf item).
Proof.
  intros (Hsz & Hnh & Hlen). unfold well_formed, with_item; simpl.
  rewrite set_bits_length. auto.
Qed.

Lemma init_wf sz nh :
  0 < sz -> 0 < nh ->
  exists bf, BloomFilter_init sz nh = Ok bf /\ well_formed bf /\
             forall i, bit_at bf i = false.
Proof.
  intros Hsz Hnh. unfold BloomFilter_init.
  destruct (Z.ltb_spec sz 0); [lia |]. eexists. split; [reflexivity |].
  split.
  - unfold well_formed; simpl. rewrite length_replicate. lia.
  - intros i. unfold bit_at; simpl.
    destruct (replicate (Z.to_nat sz) false !! Z.to_nat i) as [b |] eqn:E;
      [| reflexivity].
    apply lookup_replicate in E. simpl. tauto.
Qed.

(** *** Growth of the bit array *)

Lemma grows_refl bf : grows bf bf.
Proof. unfold grows. auto. Qed.

Lemma grows_trans a b c : grows a b -> grows b c -> grows a c.
Proof.
  unfold grows. intros (? & ? & ? & Hab) (? & ? & ? & Hbc).
  repeat split; try congruence. auto.
Qed.

Lemma grows_setitem i : respects grows (bit_setitem i).
Proof.
  intros bf. unfold bit_setitem.
  destruct (norm_index _ i) as [n | e]; simpl; [| apply grows_refl].
  unfold grows; simpl. repeat split; [apply length_insert |].
  intros j Hj. destruct (decide (j = n)) as [-> | Hne].
  - rewrite list_lookup_insert_eq; [reflexivity |].
    eapply lookup_lt_Some. exact Hj.
  - rewrite list_lookup_insert_ne by congruence. exact Hj.
Qed.

Lemma grows_add item bf : grows bf (fst (add item bf)).
Proof.
  apply (respects_add grows grows_refl grows_trans grows_setitem).
Qed.

Lemma grows_add_all ys : forall bf, grows bf (add_all ys bf).
Proof.
  unfold add_all. induction ys as [| y ys IH]; intros bf; simpl.
  - apply grows_refl.
  - eapply grows_trans; [apply grows_add | apply IH].
Qed.

Lemma grows_wf bf bf' : grows bf bf' -> well_formed bf -> well_formed bf'.
Proof.
  unfold grows, well_formed. intros (-> & -> & -> & _). auto.
Qed.

Lemma count_ones_le : forall l l' : list bool,
  length l' = length l ->
  (forall i : nat, l !! i = Some true -> l' !! i = Some true) ->
  (count_ones l <= count_ones l')%nat.
Proof.
  induction l as [| b l IH]; intros [| b' l'] Hlen H; simpl in *;
    try lia; try discriminate.
  assert (Hl : (count_ones l <= count_ones l')%nat).
  { apply IH; [lia |]. intros i Hi. apply (H (S i)). exact Hi. }
  destruct b; [| lia].
  specialize (H O eq_refl). simpl in H. injection H as ->. lia.
Qed.

Lemma bit_at_true bf i :
  bit_at bf i = true <-> bit_array bf !! Z.to_nat i = Some true.
Proof.
  unfold bit_at. destruct (bit_array bf !! Z.to_nat i) as [[|] |]; simpl;
    split; congruence.
Qed.

Lemma in_range n x : x ∈ range n <-> 0 <= x < n.
Proof.
  unfold range. rewrite list_elem_of_In, in_map_iff. split.
  - intros [k [<- Hk]]. apply in_seq in Hk. lia.
  - intros Hx. exists (Z.to_nat x). split; [lia |]. apply in_seq. lia.
Qed.

Lemma mightContain_iff bf item :
  mightContain bf item = true <->
  forall seed, 0 <= seed < num_hashes bf ->
    bit_array bf !! Z.to_nat (mmh3_hash item seed mod size bf) = Some true.
Proof.
  unfold mightContain, indices. rewrite forallb_forall. split.
  - intros H seed Hseed. apply bit_at_true. apply H.
    apply in_map_iff. exists seed. split; [reflexivity |].
    apply list_elem_of_In, in_range. exact Hseed.
  - intros H i Hi. apply in_map_iff in Hi. destruct Hi as [seed [<- Hs]].
    apply bit_at_true, H. apply in_range, list_elem_of_In. exact Hs.
Qed.

Lemma mightContain_grows bf bf' item :
  grows bf bf' -> mightContain bf item = true -> mightContain bf' item = true.
Proof.
  intros (Hsz & Hnh & _ & Hbits). rewrite !mightContain_iff.
  rewrite Hsz, Hnh. intros H seed Hseed. apply Hbits, H, Hseed.
Qed.

Lemma mightContain_with_item bf item :
  well_formed bf -> mightContain (with_item bf item) item = true.
Proof.
  intros (Hsz & Hnh & Hlen). apply mightContain_iff. simpl.
  intros seed Hseed. rewrite set_bits_lookup. apply decide_True.
  pose proof (Z.mod_pos_bound (mmh3_hash item seed) (size bf) Hsz) as Hb.
  split; [| lia].
  apply list_elem_of_In, in_map. unfold indices. apply in_map_iff.
  exists seed. split; [reflexivity |].
  apply list_elem_of_In, in_range. exact Hseed.
Qed.

Lemma mightContain_empty bf item :
  0 < num_hashes bf -> (forall i, bit_at bf i = false) ->
  mightContain bf item = false.
Proof.
  intros Hnh Hz. destruct (mightContain bf item) eqn:E; [| reflexivity].
  rewrite mightContain_iff in E. specialize (E 0 ltac:(lia)).
  apply bit_at_true in E. rewrite Hz in E. discriminate.
Qed.


(** *** Trimming *)

Lemma lstrip_nil s : lstrip s = [] <-> forallb isspace s = true.
Proof.
  induction s as [| c s IH]; simpl.
  - tauto.
  - destruct (isspace c); simpl; [exact IH |]. split; discriminate.
Qed.

Lemma lstrip_not_space s c r : lstrip s = c :: r -> isspace c = false.
Proof.
  induction s as [| c' s IH]; simpl; [discriminate |].
  destruct (isspace c') eqn:E; [exact IH |].
  intros [= <- _]. exact E.
Qed.

(** [not password.strip()] holds exactly for the empty and the
    whitespace-only strings. *)
Lemma strip_blank s : negb (str_bool (strip s)) = forallb isspace s.
Proof.
  unfold strip, rstrip.
  destruct (forallb isspace s) eqn:E.
  - apply lstrip_nil in E. rewrite E. reflexivity.
  - destruct (lstrip s) as [| c r] eqn:El.
    { apply lstrip_nil in El. congruence. }
    apply lstrip_not_space in El.
    destruct (lstrip (rev (c :: r))) as [| c' r'] eqn:Er.
    + apply lstrip_nil in Er. simpl in Er.
      rewrite forallb_app in Er. simpl in Er. rewrite El in Er.
      rewrite !andb_false_r in Er. discriminate.
    + destruct (rev (c' :: r')) eqn:Erev; [| reflexivity].
      apply (f_equal (@length Z)) in Erev.
      rewrite length_rev in Erev. discriminate.
Qed.

(** *** The result dictionary *)

Lemma dict_get_set_eq d k v : dict_get (dict_set d k v) k = Some v.
Proof.
  induction d as [| [k' v'] d IH]; simpl.
  - rewrite decide_True by reflexivity. reflexivity.
  - destruct (decide (k' = k)) as [-> | Hne]; simpl.
    + rewrite decide_True by reflexivity. reflexivity.
    + rewrite decide_False by exact Hne. exact IH.
Qed.

Lemma dict_get_set_ne d k k' v :
  k' <> k -> dict_get (dict_set d k' v) k = dict_get d k.
Proof.
  intros Hne. induction d as [| [k0 v0] d IH]; simpl.
  - rewrite decide_False by exact Hne. reflexivity.
  - destruct (decide (k0 = k')) as [-> | Hne0]; simpl.
    + rewrite !decide_False by exact Hne. reflexivity.
    + destruct (decide (k0 = k)); [reflexivity | exact IH].
Qed.

(** A key all of whose entries are recorded with the status [v] is
    mapped to [v] in the end. *)
Lemma recorded_get k v ks : forall sts d,
  length sts = length ks ->
  (forall j : nat, ks !! j = Some k -> sts !! j = Some v) ->
  k ∈ ks \/ dict_get d k = Some v ->
  dict_get (recorded d ks sts) k = Some v.
Proof.
  unfold recorded.
  induction ks as [| k0 ks IH]; intros [| st sts] d Hlen Hall Hin;
    simpl in *; try discriminate.
  - destruct Hin as [Hin | Hd]; [inversion Hin | exact Hd].
  - apply IH.
    + lia.
    + intros j Hj. apply (Hall (S j)). exact Hj.
    + destruct (decide (k0 = k)) as [-> | Hne].
      * right. specialize (Hall O eq_refl). simpl in Hall.
        injection Hall as ->. apply dict_get_set_eq.
      * destruct Hin as [Hin | Hd].
        -- left. inversion Hin; subst; [congruence | assumption].
        -- right. rewrite dict_get_set_ne by exact Hne. exact Hd.
Qed.


(** *** The classification *)

Lemma classify_spec_length cs : forall bf,
  length (snd (classify_spec bf cs)) = length cs.
Proof.
  induction cs as [| c cs IH]; intros bf; simpl; [reflexivity |].
  destruct c as [| s | z | items]; simpl.
  - specialize (IH bf). destruct (classify_spec bf cs). simpl in *. lia.
  - destruct (forallb isspace s).
    + specialize (IH bf). destruct (classify_spec bf cs). simpl in *. lia.
    + destruct (mightContain bf s).
      * specialize (IH bf). destruct (classify_spec bf cs). simpl in *. lia.
      * specialize (IH (with_item bf s)).
        destruct (classify_spec (with_item bf s) cs). simpl in *. lia.
  - specialize (IH bf). destruct (classify_spec bf cs). simpl in *. lia.
  - specialize (IH bf). destruct (classify_spec bf cs). simpl in *. lia.
Qed.


(** The loop of [check_password_uniqueness] on hashable candidates and a
    validly constructed filter: it returns, the filter is the one the
    specification's fold leaves, and the dictionary holds the fold's
    classifications, written in input order. *)
Lemma classify_loop_spec ks : forall d bf,
  well_formed bf ->
  classify_loop d (map val_of_key ks) bf =
    (fst (classify_spec bf (map val_of_key ks)),
     Ok (recorded d ks (snd (classify_spec bf (map val_of_key ks))))).
Proof.
  induction ks as [| k ks IH]; intros d bf Hwf; [reflexivity |].
  cbn [map classify_loop classify_spec]. unfold bind at 1.
  destruct k as [| s | z]; cbn [val_of_key classify_body].
  - cbn. rewrite (IH _ bf Hwf).
    destruct (classify_spec bf (map val_of_key ks)); reflexivity.
  - rewrite strip_blank. cbn [invalid_candidate].
    destruct (forallb isspace s).
    + cbn. rewrite (IH _ bf Hwf).
      destruct (classify_spec bf (map val_of_key ks)); reflexivity.
    + unfold bind at 1. rewrite (check_wf bf s Hwf).
      destruct (mightContain bf s).
      * cbn. rewrite (IH _ bf Hwf).
        destruct (classify_spec bf (map val_of_key ks)); reflexivity.
      * unfold bind at 1. cbn [lift dict_setitem key_of].
        unfold bind at 1. rewrite (add_wf bf s Hwf). cbn [ret].
        rewrite (IH _ (with_item bf s) (with_item_wf bf s Hwf)).
        destruct (classify_spec (with_item bf s) (map val_of_key ks));
          reflexivity.
  - cbn. rewrite (IH _ bf Hwf).
    destruct (classify_spec bf (map val_of_key ks)); reflexivity.
Qed.
(** *** The filter's claims *)

(** C1. No false negatives: on a validly constructed filter, after
    [add(x)] followed by any further [add] calls, [check(x)] returns
    [True] (and raises nothing). *)
Theorem no_false_negatives bf x ys :
  well_formed bf ->
  let bf' := add_all ys (fst (add x bf)) in
  check x bf' = (bf', Ok true).
Proof.
  intros Hwf bf'.
  assert (Hadd : fst (add x bf) = with_item bf x) by (rewrite add_wf; auto).
  assert (Hg : grows (with_item bf x) bf').
  { subst bf'. rewrite Hadd. apply grows_add_all. }
  rewrite check_wf.
  - f_equal. f_equal. eapply mightContain_grows; [exact Hg |].
    apply mightContain_with_item. exact Hwf.
  - eapply grows_wf; [exact Hg |]. apply with_item_wf. exact Hwf.
Qed.

(** C3. Membership test: on a validly constructed filter [check(item)]
    returns a boolean, which is [True] if and only if the bit at
    [mmh3.hash(item, seed) % size] is set for every seed in
    [0 .. num_hashes - 1]. *)
Theorem check_iff_all_indices_set bf item :
  well_formed bf ->
  exists b, check item bf = (bf, Ok b) /\
    (b = true <->
     forall seed, 0 <= seed < num_hashes bf ->
       bit_array bf !! Z.to_nat (mmh3_hash item seed mod size bf)
         = Some true).
Proof.
  intros Hwf. exists (mightContain bf item). split.
  - apply check_wf. exact Hwf.
  - apply mightContain_iff.
Qed.

(** C5. Monotonicity: across any sequence of [add], [check] and
    [check_password_uniqueness] calls, on any filter (validly constructed
    or not, the calls returning or raising), the parameters and the
    length of the bit array stay, every bit that is set stays set, and
    the number of set bits does not decrease. *)
Theorem bits_never_cleared ops bf :
  let bf' := run_ops ops bf in
  size bf' = size bf /\ num_hashes bf' = num_hashes bf /\
  length (bit_array bf') = length (bit_array bf) /\
  (forall i : nat, bit_array bf !! i = Some true ->
                   bit_array bf' !! i = Some true) /\
  (count_ones (bit_array bf) <= count_ones (bit_array bf'))%nat.
Proof.
  intros bf'.
  pose proof (respects_run_ops grows grows_refl grows_trans grows_setitem
                ops bf) as (Hsz & Hnh & Hlen & Hbits).
  fold bf' in Hsz, Hnh, Hlen, Hbits.
  repeat split; try assumption.
  apply count_ones_le; assumption.
Qed.

(** C6. Idempotence of [add]: on any filter, a second [add(x)] right
    after the first leaves the whole filter, bit array included, as the
    first left it, and ends the same way. *)
Theorem add_idempotent bf x :
  add x (fst (add x bf)) = (fst (add x bf), snd (add x bf)).
Proof.
  rewrite (add_pure x bf).
  destruct (traverse (fun seed => py_mod (mmh3_hash x seed) (size bf))
              (range (num_hashes bf))) as [hs | e] eqn:Ehs.
  - set (bf1 := fst (for_each hs bit_setitem bf)).
    assert (Hbf1 : bf1 = mkBloomFilter (size bf) (num_hashes bf)
              (set_bits (bit_array bf)
                 (norm_prefix (Z.of_nat (length (bit_array bf))) hs))).
    { apply for_each_setitem_state. }
    rewrite (add_pure x bf1).
    replace (size bf1) with (size bf) by (rewrite Hbf1; reflexivity).
    replace (num_hashes bf1) with (num_hashes bf)
      by (rewrite Hbf1; reflexivity).
    rewrite Ehs.
    rewrite (surjective_pairing (for_each hs bit_setitem bf1)). f_equal.
    + rewrite for_each_setitem_state. rewrite Hbf1 at 1 2 3 4. simpl.
      rewrite set_bits_length, set_bits_idem. symmetry. exact Hbf1.
    + apply for_each_setitem_outcome. rewrite Hbf1. simpl.
      apply set_bits_length.
  - simpl. rewrite (add_pure x bf), Ehs. reflexivity.
Qed.


(** C10. [check(item)] and [_hashes(item)] are read-only: on any filter
    the state they leave is the state they found, field by field. *)
Theorem check_read_only bf item :
  fst (check item bf) = bf /\ fst (_hashes item bf) = bf /\
  size (fst (check item bf)) = size bf /\
  num_hashes (fst (check item bf)) = num_hashes bf /\
  bit_array (fst (check item bf)) = bit_array bf.
Proof.
  assert (Hc : fst (check item bf) = bf).
  { symmetry. apply (respects_check eq); [reflexivity |].
    intros a b c -> ->. reflexivity. }
  assert (Hh : fst (_hashes item bf) = bf).
  { symmetry. apply (respects_hashes eq); [reflexivity |].
    intros a b c -> ->. reflexivity. }
  rewrite Hc. auto.
Qed.



Lemma blank_invalid c : blank_or_not_str c -> invalid_candidate c = true.
Proof.
  destruct c as [| s | z | items]; simpl; try reflexivity.
  intros H. rewrite <- strip_blank, H. reflexivity.
Qed.

Lemma init_empty sz nh bf :
  0 < sz -> 0 < nh -> BloomFilter_init sz nh = Ok bf ->
  well_formed bf /\ forall i, bit_at bf i = false.
Proof.
  intros Hsz Hnh Hbf.
  destruct (init_wf sz nh Hsz Hnh) as (bf' & Hbf' & Hwf & Hz).
  rewrite Hbf in Hbf'. injection Hbf' as <-. auto.
Qed.

(** *** The classifier's claims *)



(** C9. On a filter just constructed with positive parameters and the
    input ["a", "a"]: the first ["a"] is written as [Unique] and added to
    the filter, the second is then written as [AlreadyUsed] under the
    same key, and the returned dictionary holds the one entry
    ["a" : AlreadyUsed]. *)
Theorem within_batch_duplicate sz nh bf :
  0 < sz -> 0 < nh -> BloomFilter_init sz nh = Ok bf ->
  let a := str "a" in
  let bf1 := with_item bf a in
  classify_body [] (PyStr a) bf = (bf1, Ok [(KStr a, Unique)]) /\
  classify_body [(KStr a, Unique)] (PyStr a) bf1
    = (bf1, Ok [(KStr a, AlreadyUsed)]) /\
  check_password_uniqueness [PyStr a; PyStr a] bf
    = (bf1, Ok [(KStr a, AlreadyUsed)]).
Proof.
  intros Hsz Hnh Hbf a bf1.
  destruct (init_empty sz nh bf Hsz Hnh Hbf) as [Hwf Hz].
  assert (Hwf1 : well_formed bf1) by (apply with_item_wf; exact Hwf).
  assert (H1 : classify_body [] (PyStr a) bf = (bf1, Ok [(KStr a, Unique)])).
  { cbn [classify_body]. rewrite strip_blank.
    change (forallb isspace a) with false. cbv iota.
    unfold bind at 1. rewrite (check_wf bf a Hwf).
    rewrite (mightContain_empty bf a) by (destruct Hwf; tauto).
    unfold bind at 1. cbn [lift dict_setitem key_of].
    unfold bind at 1. rewrite (add_wf bf a Hwf). reflexivity. }
  assert (H2 : classify_body [(KStr a, Unique)] (PyStr a) bf1
               = (bf1, Ok [(KStr a, AlreadyUsed)])).
  { cbn [classify_body]. rewrite strip_blank.
    change (forallb isspace a) with false. cbv iota.
    unfold bind at 1. rewrite (check_wf bf1 a Hwf1).
    replace (mightContain bf1 a) with true
      by (symmetry; apply mightContain_with_item; exact Hwf).
    cbn [lift dict_setitem key_of dict_set].
    rewrite decide_True by reflexivity. reflexivity. }
  split; [exact H1 |]. split; [exact H2 |].
  unfold check_password_uniqueness. cbn [classify_loop].
  unfold bind at 1. rewrite H1. unfold bind at 1. rewrite H2. reflexivity.
Qed.

(** ** Further properties of the filter *)

Lemma elem_of_indices bf item (n : nat) :
  0 < size bf ->
  n ∈ map Z.to_nat (indices bf item) <->
  exists seed, 0 <= seed < num_hashes bf /\
               n = Z.to_nat (mmh3_hash item seed mod size bf).
Proof.
  intros Hsz. unfold indices. rewrite list_elem_of_In, map_map, in_map_iff.
  split.
  - intros (seed & <- & Hs). exists seed. split; [| reflexivity].
    apply in_range, list_elem_of_In. exact Hs.
  - intros (seed & Hs & ->). exists seed. split; [reflexivity |].
    apply list_elem_of_In, in_range. exact Hs.
Qed.

(** X1. [add(item)] on a validly constructed filter sets the bits at the
    item's indices and no other: a bit is set afterwards exactly when it
    was set before or is one of the indices. *)
Theorem add_sets_exactly_indices bf item (i : nat) :
  well_formed bf ->
  bit_array (fst (add item bf)) !! i = Some true <->
  bit_array bf !! i = Some true \/
  exists seed, 0 <= seed < num_hashes bf /\
               i = Z.to_nat (mmh3_hash item seed mod size bf).
Proof.
  intros Hwf. pose proof Hwf as (Hsz & Hnh & Hlen).
  rewrite add_wf by exact Hwf. simpl. rewrite set_bits_lookup.
  destruct (decide (i ∈ map Z.to_nat (indices bf item) /\
                    (i < length (bit_array bf))%nat)) as [[Hin Hlt] | Hn].
  - split; [| reflexivity]. intros _. right.
    apply elem_of_indices; assumption.
  - split; [tauto |]. intros [H | (seed & Hs & ->)]; [exact H |].
    exfalso. apply Hn.
    pose proof (Z.mod_pos_bound (mmh3_hash item seed) (size bf) Hsz).
    split; [| lia]. apply elem_of_indices; [exact Hsz |]. eauto.
Qed.

Lemma with_item_comm bf x y :
  with_item (with_item bf x) y = with_item (with_item bf y) x.
Proof.
  unfold with_item; simpl. f_equal.
  change (indices (mkBloomFilter (size bf) (num_hashes bf) ?b) ?s)
    with (indices bf s).
  apply list_eq. intros i.
  rewrite !set_bits_lookup, !set_bits_length.
  repeat case_decide; tauto.
Qed.

Lemma add_all_cons y ys bf :
  add_all (y :: ys) bf = add_all ys (fst (add y bf)).
Proof. reflexivity. Qed.

Lemma add_all_wf ys bf : well_formed bf -> well_formed (add_all ys bf).
Proof. apply grows_wf, grows_add_all. Qed.

(** X2. The order of insertion does not matter: adding the same items in
    any order to a validly constructed filter gives the same filter. *)
Theorem add_all_permutation ys ys' :
  Permutation ys ys' ->
  forall bf, well_formed bf -> add_all ys bf = add_all ys' bf.
Proof.
  induction 1 as [| y l l' _ IH | x y l | l l' l'' _ IH1 _ IH2];
    intros bf Hwf.
  - reflexivity.
  - rewrite !add_all_cons. apply IH.
    rewrite add_wf by exact Hwf. apply with_item_wf, Hwf.
  - rewrite !add_all_cons.
    rewrite (add_wf bf y Hwf), (add_wf bf x Hwf). simpl.
    rewrite (add_wf _ x (with_item_wf bf y Hwf)).
    rewrite (add_wf _ y (with_item_wf bf x Hwf)). simpl.
    rewrite with_item_comm. reflexivity.
  - rewrite IH1 by exact Hwf. apply IH2, Hwf.
Qed.

Lemma count_ones_insert (bits : list bool) : forall n : nat,
  (count_ones (<[n := true]> bits) <= count_ones bits + 1)%nat.
Proof.
  induction bits as [| b bits IH]; intros [| n]; simpl; try lia.
  specialize (IH n). lia.
Qed.

Lemma count_ones_set_bits ns : forall bits : list bool,
  (count_ones (set_bits bits ns) <= count_ones bits + length ns)%nat.
Proof.
  unfold set_bits. induction ns as [| n ns IH]; intros bits; simpl.
  - lia.
  - pose proof (IH (<[n := true]> bits)).
    pose proof (count_ones_insert bits n). lia.
Qed.

(** X3. One [add] on a validly constructed filter sets at most
    [num_hashes] new bits. *)
Theorem add_sets_at_most_num_hashes bf item :
  well_formed bf ->
  Z.of_nat (count_ones (bit_array (fst (add item bf))))
    <= Z.of_nat (count_ones (bit_array bf)) + num_hashes bf.
Proof.
  intros Hwf. rewrite add_wf by exact Hwf. simpl.
  pose proof (count_ones_set_bits (map Z.to_nat (indices bf item))
                (bit_array bf)) as H.
  rewrite length_map in H.
  pose proof (indices_length bf item). destruct Hwf as (_ & Hnh & _). lia.
Qed.

(** X4. A filter just constructed with positive parameters contains
    nothing: [check] returns [False] for every item. *)
Theorem empty_filter_contains_nothing sz nh bf item :
  0 < sz -> 0 < nh -> BloomFilter_init sz nh = Ok bf ->
  check item bf = (bf, Ok false).
Proof.
  intros Hsz Hnh Hbf.
  destruct (init_empty sz nh bf Hsz Hnh Hbf) as [Hwf Hz].
  rewrite check_wf by exact Hwf.
  rewrite mightContain_empty; [reflexivity | apply Hwf | exact Hz].
Qed.

Lemma range_nonpos n : n <= 0 -> range n = [].
Proof.
  intros H. unfold range. replace (Z.to_nat n) with O by lia. reflexivity.
Qed.

Lemma range_pos n : 0 < n -> exists l, range n = 0 :: l.
Proof.
  intros H. unfold range.
  destruct (Z.to_nat n) as [| k] eqn:E; [lia |]. simpl. eauto.
Qed.

(** X5. With [num_hashes <= 0], which the constructor accepts, the
    filter tests nothing: [check] returns [True] for every item and
    [add] returns without changing a bit, whatever the size. *)
Theorem no_hashes_filter_accepts_everything bf item :
  num_hashes bf <= 0 ->
  check item bf = (bf, Ok true) /\ add item bf = (bf, Ok tt).
Proof.
  intros Hnh. split.
  - unfold check, bind. rewrite hashes_pure, range_nonpos by exact Hnh.
    reflexivity.
  - rewrite add_pure, range_nonpos by exact Hnh. reflexivity.
Qed.

(** X6. With [size = 0] and [num_hashes > 0], which the constructor
    accepts too, [add] and [check] raise [ZeroDivisionError] for every
    item and leave the filter as it was. *)
Theorem zero_size_filter_raises bf item :
  size bf = 0 -> 0 < num_hashes bf ->
  check item bf = (bf, Raise ZeroDivisionError) /\
  add item bf = (bf, Raise ZeroDivisionError).
Proof.
  intros Hsz Hnh. destruct (range_pos _ Hnh) as [l Hl]. split.
  - unfold check, bind. rewrite hashes_pure, Hl, Hsz. reflexivity.
  - rewrite add_pure, Hl, Hsz. reflexivity.
Qed.

(** X7. Membership is never lost: once [check(x)] returns [True] on a
    validly constructed filter, it returns [True] after any sequence of
    [add], [check] and [check_password_uniqueness] calls, whether they
    return or raise. *)
Theorem check_stays_true ops bf x :
  well_formed bf ->
  check x bf = (bf, Ok true) ->
  check x (run_ops ops bf) = (run_ops ops bf, Ok true).
Proof.
  intros Hwf Hx.
  pose proof (respects_run_ops grows grows_refl grows_trans grows_setitem
                ops bf) as Hg.
  rewrite check_wf in Hx by exact Hwf. injection Hx as Hx.
  rewrite check_wf by (eapply grows_wf; eassumption).
  f_equal. f_equal. eapply mightContain_grows; eassumption.
Qed.

Lemma mightContain_add_all ys : forall bf y,
  well_formed bf -> y ∈ ys -> mightContain (add_all ys bf) y = true.
Proof.
  induction ys as [| y0 ys IH]; intros bf y Hwf Hy; [inversion Hy |].
  rewrite add_all_cons, add_wf by exact Hwf. simpl.
  apply elem_of_cons in Hy. destruct Hy as [-> | Hy].
  - eapply mightContain_grows; [apply grows_add_all |].
    apply mightContain_with_item, Hwf.
  - apply IH; [apply with_item_wf, Hwf | exact Hy].
Qed.


(** ** Further properties of the classifier *)

Lemma with_item_known bf s :
  mightContain bf s = true -> with_item bf s = bf.
Proof.
  intros Hm. destruct bf as [sz nh bits]. unfold with_item; simpl.
  f_equal. apply list_eq. intros i. rewrite set_bits_lookup.
  case_decide as H; [| reflexivity]. destruct H as [Hin _].
  apply list_elem_of_In, in_map_iff in Hin. destruct Hin as (h & <- & Hh).
  unfold mightContain in Hm. rewrite forallb_forall in Hm.
  symmetry. apply (bit_at_true (mkBloomFilter sz nh bits) h), Hm, Hh.
Qed.

Lemma add_all_known ys : forall bf,
  well_formed bf -> (forall y, y ∈ ys -> mightContain bf y = true) ->
  add_all ys bf = bf.
Proof.
  induction ys as [| y ys IH]; intros bf Hwf Hall; [reflexivity |].
  rewrite add_all_cons, add_wf by exact Hwf. simpl.
  rewrite with_item_known by (apply Hall; left).
  apply IH; [exact Hwf |]. intros y' Hy'. apply Hall. right. exact Hy'.
Qed.

Lemma add_all_app ys1 ys2 bf :
  add_all (ys1 ++ ys2) bf = add_all ys2 (add_all ys1 bf).
Proof. unfold add_all. apply fold_left_app. Qed.

Lemma valid_passwords_app cs1 cs2 :
  valid_passwords (cs1 ++ cs2) = valid_passwords cs1 ++ valid_passwords cs2.
Proof.
  induction cs1 as [| c cs1 IH]; [reflexivity |].
  destruct c as [| s | z | items]; simpl; try exact IH.
  destruct (forallb isspace s); simpl; [exact IH | rewrite IH; reflexivity].
Qed.

Lemma elem_of_valid_passwords s ks :
  s ∈ valid_passwords (map val_of_key ks) <->
  KStr s ∈ ks /\ forallb isspace s = false.
Proof.
  induction ks as [| k ks IH]; simpl.
  - split; [intros H; inversion H | intros [H _]; inversion H].
  - destruct k as [| s' | z]; simpl.
    + rewrite IH, elem_of_cons. split; [tauto |].
      intros [[H | H] ?]; [discriminate | tauto].
    + destruct (forallb isspace s') eqn:E.
      * rewrite IH, elem_of_cons. split; [tauto |].
        intros [[H | H] ?]; [| tauto]. congruence.
      * rewrite !elem_of_cons, IH. split.
        -- intros [-> | [? ?]]; [split; [left; reflexivity | exact E] |].
           tauto.
        -- intros [[H | H] ?]; [left; congruence | tauto].
    + rewrite IH, elem_of_cons. split; [tauto |].
      intros [[H | H] ?]; [discriminate | tauto].
Qed.

(** The fold of the classifier, one candidate at a time. *)
Lemma classify_spec_cons bf c cs :
  classify_spec bf (c :: cs) =
    (fst (classify_spec (if status_of bf c is Unique
                         then match c with
                              | PyStr s => with_item bf s
                              | _ => bf
                              end
                         else bf) cs),
     status_of bf c ::
       snd (classify_spec (if status_of bf c is Unique
                           then match c with
                                | PyStr s => with_item bf s
                                | _ => bf
                                end
                           else bf) cs)).
Proof.
  destruct c as [| s | z | items]; simpl;
    try (destruct (classify_spec bf cs); reflexivity).
  destruct (forallb isspace s);
    [destruct (classify_spec bf cs); reflexivity |].
  destruct (mightContain bf s);
    [destruct (classify_spec bf cs); reflexivity |].
  destruct (classify_spec (with_item bf s) cs); reflexivity.
Qed.

Lemma classify_spec_filter cs : forall bf,
  well_formed bf ->
  fst (classify_spec bf cs) = add_all (valid_passwords cs) bf.
Proof.
  induction cs as [| c cs IH]; intros bf Hwf; [reflexivity |].
  rewrite classify_spec_cons. cbn [fst].
  destruct c as [| s | z | items]; cbn [status_of valid_passwords];
    try (apply IH; exact Hwf).
  destruct (forallb isspace s); [apply IH; exact Hwf |].
  rewrite add_all_cons, add_wf by exact Hwf. cbn [fst].
  destruct (mightContain bf s) eqn:Em.
  - rewrite with_item_known by exact Em. apply IH, Hwf.
  - apply IH, with_item_wf, Hwf.
Qed.

(** The classification at a position: that of the candidate against the
    filter with the valid candidates before it added. *)
Lemma classify_spec_at cs1 : forall bf c cs2,
  well_formed bf ->
  snd (classify_spec bf (cs1 ++ c :: cs2)) !! length cs1 =
    Some (status_of (add_all (valid_passwords cs1) bf) c).
Proof.
  induction cs1 as [| c1 cs1 IH]; intros bf c cs2 Hwf.
  - simpl app. rewrite classify_spec_cons. reflexivity.
  - simpl app. rewrite classify_spec_cons. cbn [snd length].
    change ((?x :: ?l) !! S ?n) with (l !! n).
    destruct c1 as [| s | z | items]; cbn [status_of valid_passwords];
      try (apply IH; exact Hwf).
    destruct (forallb isspace s); [apply IH; exact Hwf |].
    rewrite add_all_cons, add_wf by exact Hwf. cbn [fst].
    destruct (mightContain bf s) eqn:Em.
    + rewrite with_item_known by exact Em. apply IH, Hwf.
    + apply IH, with_item_wf, Hwf.
Qed.

Lemma recorded_cons d k ks st sts :
  recorded d (k :: ks) (st :: sts) = recorded (dict_set d k st) ks sts.
Proof. reflexivity. Qed.

Lemma recorded_get_notin k ks : forall sts d,
  k ∉ ks -> dict_get (recorded d ks sts) k = dict_get d k.
Proof.
  induction ks as [| k0 ks IH]; intros sts d Hk; [reflexivity |].
  destruct sts as [| st sts]; [reflexivity |].
  rewrite recorded_cons, IH.
  - apply dict_get_set_ne. intros ->. apply Hk. left.
  - intros H. apply Hk. right. exact H.
Qed.

(** The entry of a key is the status written at its last occurrence. *)
Lemma recorded_get_last k ks1 : forall ks2 sts d,
  length sts = length (ks1 ++ k :: ks2) -> k ∉ ks2 ->
  dict_get (recorded d (ks1 ++ k :: ks2) sts) k = sts !! length ks1.
Proof.
  induction ks1 as [| k0 ks1 IH]; intros ks2 sts d Hlen Hk;
    (destruct sts as [| st sts]; [discriminate |]); simpl app.
  - rewrite recorded_cons, recorded_get_notin by exact Hk.
    apply dict_get_set_eq.
  - rewrite recorded_cons. apply IH; [| exact Hk].
    simpl in Hlen. injection Hlen as Hlen. exact Hlen.
Qed.

Lemma keys_dict_set d k v :
  keys (dict_set d k v) = if decide (k ∈ keys d) then keys d
                          else keys d ++ [k].
Proof.
  unfold keys. induction d as [| [k0 v0] d IH]; simpl; [reflexivity |].
  destruct (decide (k0 = k)) as [-> | Hne]; simpl.
  - rewrite decide_True by left. reflexivity.
  - rewrite IH. destruct (decide (k ∈ map fst d)) as [Hin | Hnin].
    + rewrite decide_True by (right; exact Hin). reflexivity.
    + rewrite decide_False; [reflexivity |].
      intros H. apply elem_of_cons in H. destruct H; congruence.
Qed.

Lemma first_occurrences_ext ks : forall seen seen',
  (forall k, k ∈ seen <-> k ∈ seen') ->
  first_occurrences seen ks = first_occurrences seen' ks.
Proof.
  induction ks as [| k ks IH]; intros seen seen' H; simpl; [reflexivity |].
  destruct (decide (k ∈ seen)) as [Hin | Hnin].
  - rewrite decide_True by (apply H; exact Hin). apply IH, H.
  - rewrite decide_False by (rewrite <- H; exact Hnin). f_equal.
    apply IH. intros k'. rewrite !elem_of_cons, H. reflexivity.
Qed.

Lemma keys_recorded ks : forall sts d,
  length sts = length ks ->
  keys (recorded d ks sts) = keys d ++ first_occurrences (keys d) ks.
Proof.
  induction ks as [| k ks IH]; intros [| st sts] d Hlen; try discriminate.
  - simpl. rewrite app_nil_r. reflexivity.
  - rewrite recorded_cons, IH by (simpl in Hlen; lia).
    rewrite keys_dict_set. simpl.
    destruct (decide (k ∈ keys d)); [reflexivity |].
    rewrite <- app_assoc. simpl. do 2 f_equal.
    apply first_occurrences_ext. intros k'.
    rewrite elem_of_app, !elem_of_cons. split.
    + intros [? | [? | H]]; [tauto | tauto | inversion H].
    + tauto.
Qed.

Lemma first_occurrences_spec ks : forall seen,
  NoDup (first_occurrences seen ks) /\
  forall k, k ∈ first_occurrences seen ks <-> k ∈ ks /\ k ∉ seen.
Proof.
  induction ks as [| k0 ks IH]; intros seen; simpl.
  - split; [constructor |]. intros k. split; [intros H; inversion H |].
    intros [H _]. inversion H.
  - destruct (decide (k0 ∈ seen)) as [Hin | Hnin].
    + destruct (IH seen) as [Hnd Hmem]. split; [exact Hnd |].
      intros k. rewrite Hmem, elem_of_cons. split; [tauto |].
      intros [[-> | ?] ?]; tauto.
    + destruct (IH (k0 :: seen)) as [Hnd Hmem]. split.
      * constructor; [| exact Hnd]. rewrite Hmem, elem_of_cons. tauto.
      * intros k. rewrite !elem_of_cons, Hmem, elem_of_cons.
        destruct (decide (k = k0)) as [-> | Hne]; tauto.
Qed.

Lemma classify_loop_app cs1 : forall d cs2 bf,
  classify_loop d (cs1 ++ cs2) bf =
    match classify_loop d cs1 bf with
    | (bf', Ok d') => classify_loop d' cs2 bf'
    | (bf', Raise e) => (bf', Raise e)
    end.
Proof.
  induction cs1 as [| c cs1 IH]; intros d cs2 bf; [reflexivity |].
  simpl. unfold bind.
  destruct (classify_body d c bf) as [bf' [d' | e]]; [apply IH | reflexivity].
Qed.

(** The loop on a filter that reports every valid candidate of the batch
    as present: the filter is left as it was and nothing is [Unique]. *)
Lemma classify_loop_known ks : forall d bf,
  (forall s, s ∈ valid_passwords (map val_of_key ks) ->
             check s bf = (bf, Ok true)) ->
  classify_loop d (map val_of_key ks) bf =
    (bf, Ok (recorded d ks (map known_status (map val_of_key ks)))).
Proof.
  induction ks as [| k ks IH]; intros d bf Hall; [reflexivity |].
  cbn [map classify_loop]. unfold bind at 1. rewrite recorded_cons.
  destruct k as [| s | z]; cbn [val_of_key classify_body].
  - cbn. apply IH. exact Hall.
  - rewrite strip_blank. unfold known_status at 1. cbn [invalid_candidate].
    cbn [map val_of_key valid_passwords] in Hall.
    destruct (forallb isspace s).
    + cbn. apply IH. exact Hall.
    + unfold bind at 1. rewrite (Hall s) by left.
      cbn. apply IH. intros s' Hs'. apply Hall. right. exact Hs'.
  - cbn. apply IH. exact Hall.
Qed.

Lemma recorded_known_get d ks k :
  k ∈ ks ->
  dict_get (recorded d ks (map known_status (map val_of_key ks))) k
    = Some (known_status (val_of_key k)).
Proof.
  intros Hk. apply recorded_get; [rewrite !length_map; reflexivity | |].
  - intros j Hj. rewrite !list_lookup_fmap, Hj. reflexivity.
  - left. exact Hk.
Qed.

Lemma classify_result bf ks :
  well_formed bf ->
  check_password_uniqueness (map val_of_key ks) bf =
    (add_all (valid_passwords (map val_of_key ks)) bf,
     Ok (recorded [] ks (snd (classify_spec bf (map val_of_key ks))))).
Proof.
  intros Hwf. unfold check_password_uniqueness.
  rewrite classify_loop_spec, classify_spec_filter by exact Hwf.
  reflexivity.
Qed.

(** X9. The filter after a classification is the filter with the valid
    candidates of the batch added (the strings with a character that is
    not whitespace), and with nothing else. *)
Theorem classify_adds_valid_candidates bf ks :
  well_formed bf ->
  fst (check_password_uniqueness (map val_of_key ks) bf)
    = add_all (valid_passwords (map val_of_key ks)) bf.
Proof. intros Hwf. rewrite classify_result by exact Hwf. reflexivity. Qed.

(** X10. After a classification every valid candidate of the batch is
    reported as present by [check]. *)
Theorem classified_candidates_are_contained bf ks s :
  well_formed bf ->
  KStr s ∈ ks -> forallb isspace s = false ->
  let bf' := fst (check_password_uniqueness (map val_of_key ks) bf) in
  check s bf' = (bf', Ok true).
Proof.
  intros Hwf Hs Hv bf'. subst bf'.
  rewrite classify_result by exact Hwf. cbn [fst].
  rewrite check_wf by (apply add_all_wf, Hwf). f_equal. f_equal.
  apply mightContain_add_all; [exact Hwf |].
  apply elem_of_valid_passwords. auto.
Qed.

(** X11. The entry of a candidate in the returned dictionary is its
    classification at its last occurrence, against the filter with the
    valid candidates before that occurrence added. *)
Theorem entry_is_status_at_last_occurrence bf ks1 k ks2 :
  well_formed bf -> k ∉ ks2 ->
  exists bf' d,
    check_password_uniqueness (map val_of_key (ks1 ++ k :: ks2)) bf
      = (bf', Ok d) /\
    dict_get d k =
      Some (status_of (add_all (valid_passwords (map val_of_key ks1)) bf)
              (val_of_key k)).
Proof.
  intros Hwf Hk. eexists _, _. split; [apply classify_result, Hwf |].
  rewrite recorded_get_last.
  - rewrite map_app. cbn [map].
    pose proof (classify_spec_at (map val_of_key ks1) bf (val_of_key k)
                  (map val_of_key ks2) Hwf) as H.
    rewrite length_map in H. exact H.
  - rewrite classify_spec_length, length_map. reflexivity.
  - exact Hk.
Qed.

Lemma entry_already_used bf ks1 s ks2 :
  well_formed bf -> KStr s ∉ ks2 -> forallb isspace s = false ->
  mightContain (add_all (valid_passwords (map val_of_key ks1)) bf) s = true ->
  dict_get
    (recorded [] (ks1 ++ KStr s :: ks2)
       (snd (classify_spec bf (map val_of_key (ks1 ++ KStr s :: ks2)))))
    (KStr s) = Some AlreadyUsed.
Proof.
  intros Hwf Hk Hv Hm.
  rewrite recorded_get_last;
    [| rewrite classify_spec_length, length_map; reflexivity | exact Hk].
  rewrite map_app. cbn [map].
  pose proof (classify_spec_at (map val_of_key ks1) bf (PyStr s)
                (map val_of_key ks2) Hwf) as H.
  rewrite length_map in H. cbn [val_of_key]. rewrite H.
  cbn [status_of]. rewrite Hv, Hm. reflexivity.
Qed.

(** X12. A valid candidate that occurs more than once in a batch ends as
    [AlreadyUsed], whether or not the filter knew it before. *)
Theorem repeated_candidate_already_used bf ks1 ks2 ks3 s :
  well_formed bf -> forallb isspace s = false ->
  exists bf' d,
    check_password_uniqueness
      (map val_of_key (ks1 ++ KStr s :: ks2 ++ KStr s :: ks3)) bf
      = (bf', Ok d) /\
    dict_get d (KStr s) = Some AlreadyUsed.
Proof.
  intros Hwf Hv. eexists _, _. split; [apply classify_result, Hwf |].
  destruct (list_elem_of_split_r (ks2 ++ KStr s :: ks3) (KStr s))
    as (m1 & m2 & Hsplit & Hnotin).
  { apply elem_of_app. right. left. }
  rewrite Hsplit.
  replace (ks1 ++ KStr s :: m1 ++ KStr s :: m2)
    with ((ks1 ++ KStr s :: m1) ++ KStr s :: m2)
    by (rewrite <- app_assoc; reflexivity).
  apply entry_already_used; try assumption.
  apply mightContain_add_all; [exact Hwf |].
  apply elem_of_valid_passwords. split; [| exact Hv].
  apply elem_of_app. right. left.
Qed.

(** X13. A valid candidate that the filter reports as present before the
    call ends as [AlreadyUsed]: a known password is never reported as
    unique. *)
Theorem known_candidate_already_used bf ks s :
  well_formed bf -> KStr s ∈ ks -> forallb isspace s = false ->
  check s bf = (bf, Ok true) ->
  exists bf' d,
    check_password_uniqueness (map val_of_key ks) bf = (bf', Ok d) /\
    dict_get d (KStr s) = Some AlreadyUsed.
Proof.
  intros Hwf Hs Hv Hc. eexists _, _. split; [apply classify_result, Hwf |].
  rewrite check_wf in Hc by exact Hwf. injection Hc as Hc.
  destruct (list_elem_of_split_r ks (KStr s) Hs)
    as (ks1 & ks2 & -> & Hnotin).
  apply entry_already_used; try assumption.
  eapply mightContain_grows; [apply grows_add_all | exact Hc].
Qed.

(** X14. An entry [Unique] means new and single: the filter did not
    report the candidate before the call, and the candidate occurs
    exactly once in the batch. *)
Theorem unique_means_new_and_single bf ks s d bf' :
  well_formed bf ->
  check_password_uniqueness (map val_of_key ks) bf = (bf', Ok d) ->
  dict_get d (KStr s) = Some Unique ->
  check s bf = (bf, Ok false) /\
  exists ks1 ks2, ks = ks1 ++ KStr s :: ks2 /\
                  (KStr s ∉ ks1) /\ (KStr s ∉ ks2).
Proof.
  intros Hwf Hrun Hd.
  rewrite classify_result in Hrun by exact Hwf.
  injection Hrun as _ <-.
  destruct (decide (KStr s ∈ ks)) as [Hs | Hs];
    [| rewrite recorded_get_notin in Hd by exact Hs; discriminate].
  destruct (list_elem_of_split_r ks (KStr s) Hs)
    as (ks1 & ks2 & -> & Hnotin).
  rewrite recorded_get_last in Hd;
    [| rewrite classify_spec_length, length_map; reflexivity | exact Hnotin].
  rewrite map_app in Hd. cbn [map] in Hd.
  pose proof (classify_spec_at (map val_of_key ks1) bf (PyStr s)
                (map val_of_key ks2) Hwf) as H.
  rewrite length_map in H. cbn [val_of_key] in Hd. rewrite H in Hd.
  cbn [status_of] in Hd.
  destruct (forallb isspace s) eqn:Ev; [discriminate |].
  destruct (mightContain (add_all (valid_passwords (map val_of_key ks1)) bf)
              s) eqn:Em; [discriminate |].
  split.
  - rewrite check_wf by exact Hwf. f_equal. f_equal.
    destruct (mightContain bf s) eqn:Em0; [| reflexivity].
    rewrite (mightContain_grows bf _ s (grows_add_all _ bf) Em0) in Em.
    discriminate.
  - exists ks1, ks2. split; [reflexivity |]. split; [| exact Hnotin].
    intros Hin.
    rewrite mightContain_add_all in Em; [discriminate | exact Hwf |].
    apply elem_of_valid_passwords. auto.
Qed.

(** X15. Classifying the same batch a second time finds nothing unique
    and leaves the filter as the first run left it: every valid candidate
    is [AlreadyUsed], every other one [Invalid]. *)
Theorem second_run_finds_nothing_unique bf ks :
  well_formed bf ->
  let bf1 := fst (check_password_uniqueness (map val_of_key ks) bf) in
  exists d,
    check_password_uniqueness (map val_of_key ks) bf1 = (bf1, Ok d) /\
    forall k, k ∈ ks -> dict_get d k = Some (known_status (val_of_key k)).
Proof.
  intros Hwf bf1. eexists. split.
  - apply classify_loop_known. intros s Hs. subst bf1.
    rewrite classify_result by exact Hwf. cbn [fst].
    rewrite check_wf by (apply add_all_wf, Hwf). f_equal. f_equal.
    apply mightContain_add_all; assumption.
  - intros k Hk. apply recorded_known_get, Hk.
Qed.

(** X16. The keys of the returned dictionary are the distinct candidates
    of the batch, each once, in the order of their first occurrence. *)
Theorem result_keys_are_first_occurrences bf ks :
  well_formed bf ->
  exists bf' d,
    check_password_uniqueness (map val_of_key ks) bf = (bf', Ok d) /\
    keys d = first_occurrences [] ks /\
    NoDup (keys d) /\
    (forall k, k ∈ keys d <-> k ∈ ks) /\
    (length d <= length ks)%nat.
Proof.
  intros Hwf. eexists _, _. split; [apply classify_result, Hwf |].
  assert (Hk : keys (recorded [] ks
                 (snd (classify_spec bf (map val_of_key ks))))
               = first_occurrences [] ks).
  { rewrite keys_recorded; [reflexivity |].
    rewrite classify_spec_length, length_map. reflexivity. }
  destruct (first_occurrences_spec ks []) as [Hnd Hmem].
  split; [exact Hk |]. rewrite Hk.
  split; [exact Hnd |]. split.
  - intros k. rewrite Hmem. split; [tauto |]. intros H. split; [exact H |].
    intros H'. inversion H'.
  - replace (length (recorded [] ks
               (snd (classify_spec bf (map val_of_key ks)))))
      with (length (first_occurrences [] ks))
      by (rewrite <- Hk; unfold keys; rewrite length_map; reflexivity).
    apply submseteq_length, NoDup_submseteq; [exact Hnd |].
    intros k Hin. apply Hmem in Hin. tauto.
Qed.

(** X17. A candidate that cannot be hashed stops the batch: the call
    raises [TypeError], the candidates before it have been processed (the
    filter holds the valid ones), the candidates after it have not, and
    no dictionary is returned. *)
Theorem unhashable_candidate_stops_batch bf ks items rest :
  well_formed bf ->
  check_password_uniqueness (map val_of_key ks ++ PyList items :: rest) bf
    = (add_all (valid_passwords (map val_of_key ks)) bf, Raise TypeError).
Proof.
  intros Hwf. unfold check_password_uniqueness.
  rewrite classify_loop_app.
  rewrite classify_loop_spec, classify_spec_filter by exact Hwf.
  reflexivity.
Qed.

Lemma blank_valid_passwords ks :
  (forall k, k ∈ ks -> blank_or_not_str (val_of_key k)) ->
  valid_passwords (map val_of_key ks) = [].
Proof.
  induction ks as [| k ks IH]; intros H; [reflexivity |].
  assert (Hk : blank_or_not_str (val_of_key k)) by (apply H; left).
  assert (Hks : valid_passwords (map val_of_key ks) = []).
  { apply IH. intros k' Hk'. apply H. right. exact Hk'. }
  destruct k as [| s | z]; simpl; try exact Hks.
  apply blank_invalid in Hk. simpl in Hk. rewrite Hk. exact Hks.
Qed.

(** X18. A batch of invalid candidates only (hashable values that are
    not strings, empty and whitespace-only strings) never reaches the
    filter: on any filter, validly constructed or not, the call returns,
    the filter is unchanged and every candidate is [Invalid]. *)
Theorem invalid_batch_leaves_any_filter bf ks :
  (forall k, k ∈ ks -> blank_or_not_str (val_of_key k)) ->
  exists d,
    check_password_uniqueness (map val_of_key ks) bf = (bf, Ok d) /\
    forall k, k ∈ ks -> dict_get d k = Some Invalid.
Proof.
  intros Hall. eexists. split.
  - apply classify_loop_known. rewrite blank_valid_passwords by exact Hall.
    intros s Hs. inversion Hs.
  - intros k Hk. rewrite recorded_known_get by exact Hk.
    unfold known_status. rewrite blank_invalid; [reflexivity |].
    apply Hall, Hk.
Qed.

(** X19. On a filter with [size = 0] and [num_hashes > 0] the first
    valid candidate of a batch makes the call raise [ZeroDivisionError];
    the filter is unchanged and no dictionary is returned. *)
Theorem zero_size_filter_classify_raises bf ks s rest :
  size bf = 0 -> 0 < num_hashes bf ->
  (forall k, k ∈ ks -> blank_or_not_str (val_of_key k)) ->
  forallb isspace s = false ->
  check_password_uniqueness (map val_of_key ks ++ PyStr s :: rest) bf
    = (bf, Raise ZeroDivisionError).
Proof.
  intros Hsz Hnh Hall Hv. unfold check_password_uniqueness.
  rewrite classify_loop_app, classify_loop_known.
  - cbn [classify_loop classify_body]. unfold bind at 1.
    rewrite strip_blank, Hv. unfold bind at 1.
    destruct (range_pos _ Hnh) as [l Hl].
    unfold check, bind. rewrite hashes_pure, Hl, Hsz. reflexivity.
  - rewrite blank_valid_passwords by exact Hall. intros s' Hs'.
    inversion Hs'.
Qed.

(** X20. On a filter with [num_hashes <= 0] nothing is ever [Unique]:
    every valid candidate is reported [AlreadyUsed], every other one
    [Invalid], and the filter is unchanged. *)
Theorem no_hashes_filter_classify bf ks :
  num_hashes bf <= 0 ->
  exists d,
    check_password_uniqueness (map val_of_key ks) bf = (bf, Ok d) /\
    forall k, k ∈ ks -> dict_get d k = Some (known_status (val_of_key k)).
Proof.
  intros Hnh. eexists. split.
  - apply classify_loop_known. intros s _.
    unfold check, bind. rewrite hashes_pure, range_nonpos by exact Hnh.
    reflexivity.
  - intros k Hk. apply recorded_known_get, Hk.
Qed.

End Filter.

(** ** The exact count of [hyper_log_log.py] *)

Lemma traverse_key_of ks : traverse key_of (map val_of_key ks) = Ok ks.
Proof.
  induction ks as [| k ks IH]; [reflexivity |].
  simpl. rewrite IH. destruct k; reflexivity.
Qed.

Lemma length_remove_dups_le (ks : list key) :
  (length (remove_dups ks) <= length ks)%nat.
Proof.
  apply submseteq_length, NoDup_submseteq; [apply NoDup_remove_dups |].
  intros k. apply elem_of_remove_dups.
Qed.

(** X21. [set_count] on hashable elements returns the number of distinct
    ones: at most the length of the list, equal to it exactly when no
    element repeats, and zero only for the empty list. *)
Theorem set_count_distinct ks :
  exists n, set_count (map val_of_key ks) = Ok n /\
    n = length (remove_dups ks) /\
    (n <= length ks)%nat /\
    (n = length ks <-> NoDup ks) /\
    (n = O <-> ks = []).
Proof.
  eexists. unfold set_count. rewrite traverse_key_of.
  split; [reflexivity |]. split; [reflexivity |].
  split; [apply length_remove_dups_le |]. split.
  - split.
    + intros Hlen.
      assert (Hsub : remove_dups ks ⊆+ ks).
      { apply NoDup_submseteq; [apply NoDup_remove_dups |].
        intros k. apply elem_of_remove_dups. }
      apply submseteq_length_Permutation in Hsub; [| lia].
      rewrite <- Hsub. apply NoDup_remove_dups.
    + intros Hnd. apply Permutation_length, NoDup_Permutation;
        [apply NoDup_remove_dups | exact Hnd |].
      intros k. apply elem_of_remove_dups.
  - split.
    + intros Hz. destruct ks as [| k ks]; [reflexivity |].
      assert (Hk : k ∈ remove_dups (k :: ks))
        by (apply elem_of_remove_dups; left).
      destruct (remove_dups (k :: ks)); [inversion Hk | discriminate].
    + intros ->. reflexivity.
Qed.

(** X22. [set_count] depends on the elements only, not on their order or
    on how often each occurs. *)
Theorem set_count_same_elements ks ks' :
  (forall k, k ∈ ks <-> k ∈ ks') ->
  set_count (map val_of_key ks) = set_count (map val_of_key ks').
Proof.
  intros H. unfold set_count. rewrite !traverse_key_of. f_equal.
  apply Permutation_length, NoDup_Permutation;
    try apply NoDup_remove_dups.
  intros k. rewrite !elem_of_remove_dups. apply H.
Qed.

Lemma traverse_key_of_unhashable l1 : forall items l2,
  traverse key_of (l1 ++ PyList items :: l2) = Raise TypeError.
Proof.
  induction l1 as [| x l1 IH]; intros items l2; [reflexivity |].
  simpl. destruct x; simpl; try rewrite IH; reflexivity.
Qed.

(** X23. [set_count] raises [TypeError] as soon as the list holds an
    element that cannot be hashed. *)
Theorem set_count_unhashable l1 items l2 :
  set_count (l1 ++ PyList items :: l2) = Raise TypeError.
Proof. unfold set_count. rewrite traverse_key_of_unhashable. reflexivity. Qed.

(** The published reference values of the hash. *)
Example murmur3_vectors :
  Murmur3.hash (str "foo") 0 = -156908512 /\
  Murmur3.hash (str "foo") 42 = -1322301282 /\
  Murmur3.hash_bytes [] 0 = 0 /\
  Murmur3.hash_bytes [] 1 = 1364076727 /\
  Murmur3.hash_bytes [33; 67; 101] 0 = 2118813236 /\
  Murmur3.hash_bytes [33; 67; 101; 135] 1350757870 = 593689054.
Proof. vm_compute. repeat split. Qed.


(** ** The program's own run

    [__main__] builds [BloomFilter(size=1000, num_hashes=3)], adds three
    passwords and classifies four. *)

Example main_run :
  exists bloom,
    BloomFilter_init 1000 3 = Ok bloom /\
    snd (check_password_uniqueness Murmur3.hash
           [PyStr (str "password123"); PyStr (str "newpassword");
            PyStr (str "admin123"); PyStr (str "guest")]
           (add_all Murmur3.hash
              [str "password123"; str "admin123"; str "qwerty123"] bloom))
      = Ok [(KStr (str "password123"), AlreadyUsed);
            (KStr (str "newpassword"), Unique);
            (KStr (str "admin123"), AlreadyUsed);
            (KStr (str "guest"), Unique)].
Proof. eexists. split; [reflexivity |]. vm_compute. reflexivity. Qed.

(** A negative hash value still gives an index inside the array. *)
Example negative_hash_index :
  Murmur3.hash (str "foo") 0 < 0 /\
  fst (add Murmur3.hash (str "foo")
         (mkBloomFilter 1000 1 (replicate 1000 false)))
    = mkBloomFilter 1000 1 (<[488%nat := true]> (replicate 1000 false)).
Proof. split; vm_compute; reflexivity. Qed.

(** ** The claims at concrete inputs *)

Lemma no_false_negatives_witness :
  well_formed (mkBloomFilter 1000 3 (replicate 1000 false)) /\
  let bf' :=
    add_all Murmur3.hash [str "admin123"; str "qwerty123"]
      (fst (add Murmur3.hash (str "password123")
              (mkBloomFilter 1000 3 (replicate 1000 false)))) in
  check Murmur3.hash (str "password123") bf' = (bf', Ok true).
Proof.
  assert (Hwf : well_formed (mkBloomFilter 1000 3 (replicate 1000 false))).
  { unfold well_formed. vm_compute. repeat split. }
  split; [exact Hwf |].
  apply (no_false_negatives Murmur3.hash _ (str "password123")
           [str "admin123"; str "qwerty123"] Hwf).
Defined.

Lemma check_iff_all_indices_set_witness :
  well_formed (mkBloomFilter 1000 3 (replicate 1000 false)) /\
  exists b,
    check Murmur3.hash (str "guest")
      (mkBloomFilter 1000 3 (replicate 1000 false))
      = (mkBloomFilter 1000 3 (replicate 1000 false), Ok b) /\
    (b = true <->
     forall seed, 0 <= seed < 3 ->
       replicate 1000 false
         !! Z.to_nat (Murmur3.hash (str "guest") seed mod 1000)
         = Some true).
Proof.
  assert (Hwf : well_formed (mkBloomFilter 1000 3 (replicate 1000 false))).
  { unfold well_formed. vm_compute. repeat split. }
  split; [exact Hwf |].
  apply (check_iff_all_indices_set Murmur3.hash _ (str "guest") Hwf).
Defined.





Lemma within_batch_duplicate_witness :
  0 < 1000 /\ 0 < 3 /\
  BloomFilter_init 1000 3
    = Ok (mkBloomFilter 1000 3 (replicate 1000 false)) /\
  check_password_uniqueness Murmur3.hash
    [PyStr (str "a"); PyStr (str "a")]
    (mkBloomFilter 1000 3 (replicate 1000 false))
    = (with_item Murmur3.hash
         (mkBloomFilter 1000 3 (replicate 1000 false)) (str "a"),
       Ok [(KStr (str "a"), AlreadyUsed)]).
Proof.
  assert (Hinit : BloomFilter_init 1000 3
                  = Ok (mkBloomFilter 1000 3 (replicate 1000 false))).
  { vm_compute. reflexivity. }
  split; [lia |]. split; [lia |]. split; [exact Hinit |].
  apply (within_batch_duplicate Murmur3.hash 1000 3 _); [lia | lia |].
  exact Hinit.
Defined.

(** ** Where the code departs from the specification *)




(** ** The further properties at concrete inputs *)

Lemma add_sets_exactly_indices_witness :
  well_formed main_filter /\
  (bit_array (fst (add Murmur3.hash (str "foo") main_filter)) !! 488%nat
     = Some true <->
   bit_array main_filter !! 488%nat = Some true \/
   exists seed, 0 <= seed < num_hashes main_filter /\
     488%nat = Z.to_nat (Murmur3.hash (str "foo") seed
                         mod size main_filter)).
Proof.
  assert (Hwf : well_formed main_filter).
  { unfold well_formed. vm_compute. repeat split. }
  split; [exact Hwf |].
  exact (add_sets_exactly_indices Murmur3.hash main_filter (str "foo")
           488%nat Hwf).
Defined.

Lemma add_all_permutation_witness :
  Permutation [str "admin123"; str "qwerty123"]
              [str "qwerty123"; str "admin123"] /\
  well_formed main_filter /\
  add_all Murmur3.hash [str "admin123"; str "qwerty123"] main_filter
    = add_all Murmur3.hash [str "qwerty123"; str "admin123"] main_filter.
Proof.
  assert (Hwf : well_formed main_filter).
  { unfold well_formed. vm_compute. repeat split. }
  assert (Hp : Permutation [str "admin123"; str "qwerty123"]
                           [str "qwerty123"; str "admin123"]).
  { apply perm_swap. }
  split; [exact Hp |]. split; [exact Hwf |].
  exact (add_all_permutation Murmur3.hash _ _ Hp main_filter Hwf).
Defined.

Lemma add_sets_at_most_num_hashes_witness :
  well_formed main_filter /\
  Z.of_nat (count_ones
              (bit_array (fst (add Murmur3.hash (str "guest") main_filter))))
    <= Z.of_nat (count_ones (bit_array main_filter))
       + num_hashes main_filter.
Proof.
  assert (Hwf : well_formed main_filter).
  { unfold well_formed. vm_compute. repeat split. }
  split; [exact Hwf |].
  exact (add_sets_at_most_num_hashes Murmur3.hash main_filter (str "guest")
           Hwf).
Defined.

Lemma empty_filter_contains_nothing_witness :
  0 < 1000 /\ 0 < 3 /\ BloomFilter_init 1000 3 = Ok main_filter /\
  check Murmur3.hash (str "guest") main_filter = (main_filter, Ok false).
Proof.
  assert (Hinit : BloomFilter_init 1000 3 = Ok main_filter).
  { vm_compute. reflexivity. }
  split; [lia |]. split; [lia |]. split; [exact Hinit |].
  apply (empty_filter_contains_nothing Murmur3.hash 1000 3);
    [lia | lia | exact Hinit].
Defined.

Lemma no_hashes_filter_accepts_everything_witness :
  num_hashes (mkBloomFilter 1000 0 (replicate 1000 false)) <= 0 /\
  check Murmur3.hash (str "guest")
    (mkBloomFilter 1000 0 (replicate 1000 false))
    = (mkBloomFilter 1000 0 (replicate 1000 false), Ok true) /\
  add Murmur3.hash (str "guest")
    (mkBloomFilter 1000 0 (replicate 1000 false))
    = (mkBloomFilter 1000 0 (replicate 1000 false), Ok tt).
Proof.
  assert (H : num_hashes (mkBloomFilter 1000 0 (replicate 1000 false)) <= 0).
  { simpl. lia. }
  split; [exact H |].
  exact (no_hashes_filter_accepts_everything Murmur3.hash _ (str "guest") H).
Defined.

Lemma zero_size_filter_raises_witness :
  size (mkBloomFilter 0 3 []) = 0 /\ 0 < num_hashes (mkBloomFilter 0 3 []) /\
  check Murmur3.hash (str "guest") (mkBloomFilter 0 3 [])
    = (mkBloomFilter 0 3 [], Raise ZeroDivisionError) /\
  add Murmur3.hash (str "guest") (mkBloomFilter 0 3 [])
    = (mkBloomFilter 0 3 [], Raise ZeroDivisionError).
Proof.
  assert (H1 : size (mkBloomFilter 0 3 []) = 0) by reflexivity.
  assert (H2 : 0 < num_hashes (mkBloomFilter 0 3 [])) by (simpl; lia).
  split; [exact H1 |]. split; [exact H2 |].
  exact (zero_size_filter_raises Murmur3.hash _ (str "guest") H1 H2).
Defined.

Lemma check_stays_true_witness :
  well_formed (mkBloomFilter 8 2 (replicate 8 true)) /\
  check Murmur3.hash (str "guest") (mkBloomFilter 8 2 (replicate 8 true))
    = (mkBloomFilter 8 2 (replicate 8 true), Ok true) /\
  check Murmur3.hash (str "guest")
    (run_ops Murmur3.hash
       [OpAdd (str "a"); OpClassify [PyNone; PyStr (str "b")]]
       (mkBloomFilter 8 2 (replicate 8 true)))
    = (run_ops Murmur3.hash
         [OpAdd (str "a"); OpClassify [PyNone; PyStr (str "b")]]
         (mkBloomFilter 8 2 (replicate 8 true)), Ok true).
Proof.
  assert (Hwf : well_formed (mkBloomFilter 8 2 (replicate 8 true))).
  { unfold well_formed. vm_compute. repeat split. }
  assert (Hc : check Murmur3.hash (str "guest")
                 (mkBloomFilter 8 2 (replicate 8 true))
               = (mkBloomFilter 8 2 (replicate 8 true), Ok true)).
  { vm_compute. reflexivity. }
  split; [exact Hwf |]. split; [exact Hc |].
  exact (check_stays_true Murmur3.hash _ _ (str "guest") Hwf Hc).
Defined.


Lemma classify_adds_valid_candidates_witness :
  well_formed main_filter /\
  fst (check_password_uniqueness Murmur3.hash
         (map val_of_key [KStr (str "guest"); KNone; KStr (str " ")])
         main_filter)
    = add_all Murmur3.hash
        (valid_passwords
           (map val_of_key [KStr (str "guest"); KNone; KStr (str " ")]))
        main_filter.
Proof.
  assert (Hwf : well_formed main_filter).
  { unfold well_formed. vm_compute. repeat split. }
  split; [exact Hwf |].
  exact (classify_adds_valid_candidates Murmur3.hash main_filter
           [KStr (str "guest"); KNone; KStr (str " ")] Hwf).
Defined.

Lemma classified_candidates_are_contained_witness :
  well_formed main_filter /\
  KStr (str "guest") ∈ [KNone; KStr (str "guest")] /\
  forallb isspace (str "guest") = false /\
  let bf' :=
    fst (check_password_uniqueness Murmur3.hash
           (map val_of_key [KNone; KStr (str "guest")]) main_filter) in
  check Murmur3.hash (str "guest") bf' = (bf', Ok true).
Proof.
  assert (Hwf : well_formed main_filter).
  { unfold well_formed. vm_compute. repeat split. }
  assert (Hin : KStr (str "guest") ∈ [KNone; KStr (str "guest")]).
  { right. left. }
  assert (Hv : forallb isspace (str "guest") = false) by reflexivity.
  split; [exact Hwf |]. split; [exact Hin |]. split; [exact Hv |].
  exact (classified_candidates_are_contained Murmur3.hash main_filter
           [KNone; KStr (str "guest")] (str "guest") Hwf Hin Hv).
Defined.

Lemma entry_is_status_at_last_occurrence_witness :
  well_formed main_filter /\ (KStr (str "a") ∉ [KNone]) /\
  exists bf' d,
    check_password_uniqueness Murmur3.hash
      (map val_of_key ([KStr (str "a")] ++ KStr (str "a") :: [KNone]))
      main_filter = (bf', Ok d) /\
    dict_get d (KStr (str "a")) =
      Some (status_of Murmur3.hash
              (add_all Murmur3.hash
                 (valid_passwords (map val_of_key [KStr (str "a")]))
                 main_filter)
              (val_of_key (KStr (str "a")))).
Proof.
  assert (Hwf : well_formed main_filter).
  { unfold well_formed. vm_compute. repeat split. }
  assert (Hn : KStr (str "a") ∉ [KNone]).
  { intros H. apply elem_of_cons in H. destruct H as [H | H];
      [discriminate | inversion H]. }
  split; [exact Hwf |]. split; [exact Hn |].
  exact (entry_is_status_at_last_occurrence Murmur3.hash main_filter
           [KStr (str "a")] (KStr (str "a")) [KNone] Hwf Hn).
Defined.

Lemma repeated_candidate_already_used_witness :
  well_formed main_filter /\ forallb isspace (str "a") = false /\
  exists bf' d,
    check_password_uniqueness Murmur3.hash
      (map val_of_key
         ([KNone] ++ KStr (str "a") :: [KStr (str "b")]
                  ++ KStr (str "a") :: []))
      main_filter = (bf', Ok d) /\
    dict_get d (KStr (str "a")) = Some AlreadyUsed.
Proof.
  assert (Hwf : well_formed main_filter).
  { unfold well_formed. vm_compute. repeat split. }
  assert (Hv : forallb isspace (str "a") = false) by reflexivity.
  split; [exact Hwf |]. split; [exact Hv |].
  exact (repeated_candidate_already_used Murmur3.hash main_filter
           [KNone] [KStr (str "b")] [] (str "a") Hwf Hv).
Defined.

Lemma known_candidate_already_used_witness :
  well_formed (mkBloomFilter 8 2 (replicate 8 true)) /\
  KStr (str "guest") ∈ [KStr (str "guest")] /\
  forallb isspace (str "guest") = false /\
  check Murmur3.hash (str "guest") (mkBloomFilter 8 2 (replicate 8 true))
    = (mkBloomFilter 8 2 (replicate 8 true), Ok true) /\
  exists bf' d,
    check_password_uniqueness Murmur3.hash
      (map val_of_key [KStr (str "guest")])
      (mkBloomFilter 8 2 (replicate 8 true)) = (bf', Ok d) /\
    dict_get d (KStr (str "guest")) = Some AlreadyUsed.
Proof.
  assert (Hwf : well_formed (mkBloomFilter 8 2 (replicate 8 true))).
  { unfold well_formed. vm_compute. repeat split. }
  assert (Hin : KStr (str "guest") ∈ [KStr (str "guest")]) by left.
  assert (Hv : forallb isspace (str "guest") = false) by reflexivity.
  assert (Hc : check Murmur3.hash (str "guest")
                 (mkBloomFilter 8 2 (replicate 8 true))
               = (mkBloomFilter 8 2 (replicate 8 true), Ok true)).
  { vm_compute. reflexivity. }
  split; [exact Hwf |]. split; [exact Hin |]. split; [exact Hv |].
  split; [exact Hc |].
  exact (known_candidate_already_used Murmur3.hash _
           [KStr (str "guest")] (str "guest") Hwf Hin Hv Hc).
Defined.

Lemma unique_means_new_and_single_witness :
  well_formed main_filter /\
  check_password_uniqueness Murmur3.hash
    (map val_of_key [KNone; KStr (str "guest")]) main_filter
    = (with_item Murmur3.hash main_filter (str "guest"),
       Ok [(KNone, Invalid); (KStr (str "guest"), Unique)]) /\
  dict_get [(KNone, Invalid); (KStr (str "guest"), Unique)]
    (KStr (str "guest")) = Some Unique /\
  check Murmur3.hash (str "guest") main_filter = (main_filter, Ok false) /\
  exists ks1 ks2,
    [KNone; KStr (str "guest")] = ks1 ++ KStr (str "guest") :: ks2 /\
    (KStr (str "guest") ∉ ks1) /\ (KStr (str "guest") ∉ ks2).
Proof.
  assert (Hwf : well_formed main_filter).
  { unfold well_formed. vm_compute. repeat split. }
  assert (Hrun : check_password_uniqueness Murmur3.hash
                   (map val_of_key [KNone; KStr (str "guest")]) main_filter
                 = (with_item Murmur3.hash main_filter (str "guest"),
                    Ok [(KNone, Invalid); (KStr (str "guest"), Unique)])).
  { vm_compute. reflexivity. }
  assert (Hd : dict_get [(KNone, Invalid); (KStr (str "guest"), Unique)]
                 (KStr (str "guest")) = Some Unique).
  { vm_compute. reflexivity. }
  split; [exact Hwf |]. split; [exact Hrun |]. split; [exact Hd |].
  exact (unique_means_new_and_single Murmur3.hash main_filter
           [KNone; KStr (str "guest")] (str "guest") _ _ Hwf Hrun Hd).
Defined.

Lemma second_run_finds_nothing_unique_witness :
  well_formed main_filter /\
  let bf1 :=
    fst (check_password_uniqueness Murmur3.hash
           (map val_of_key [KStr (str "guest"); KStr (str "")])
           main_filter) in
  exists d,
    check_password_uniqueness Murmur3.hash
      (map val_of_key [KStr (str "guest"); KStr (str "")]) bf1
      = (bf1, Ok d) /\
    forall k, k ∈ [KStr (str "guest"); KStr (str "")] ->
              dict_get d k = Some (known_status (val_of_key k)).
Proof.
  assert (Hwf : well_formed main_filter).
  { unfold well_formed. vm_compute. repeat split. }
  split; [exact Hwf |].
  exact (second_run_finds_nothing_unique Murmur3.hash main_filter
           [KStr (str "guest"); KStr (str "")] Hwf).
Defined.

Lemma result_keys_are_first_occurrences_witness :
  well_formed main_filter /\
  exists bf' d,
    check_password_uniqueness Murmur3.hash
      (map val_of_key [KStr (str "a"); KNone; KStr (str "a")]) main_filter
      = (bf', Ok d) /\
    keys d = first_occurrences [] [KStr (str "a"); KNone; KStr (str "a")].
Proof.
  assert (Hwf : well_formed main_filter).
  { unfold well_formed. vm_compute. repeat split. }
  split; [exact Hwf |].
  destruct (result_keys_are_first_occurrences Murmur3.hash main_filter
              [KStr (str "a"); KNone; KStr (str "a")] Hwf)
    as (bf' & d & Hrun & Hk & _).
  exists bf', d. split; [exact Hrun | exact Hk].
Defined.

Lemma unhashable_candidate_stops_batch_witness :
  well_formed main_filter /\
  check_password_uniqueness Murmur3.hash
    (map val_of_key [KStr (str "guest")]
       ++ PyList [] :: [PyStr (str "ok")]) main_filter
    = (add_all Murmur3.hash
         (valid_passwords (map val_of_key [KStr (str "guest")]))
         main_filter,
       Raise TypeError).
Proof.
  assert (Hwf : well_formed main_filter).
  { unfold well_formed. vm_compute. repeat split. }
  split; [exact Hwf |].
  exact (unhashable_candidate_stops_batch Murmur3.hash main_filter
           [KStr (str "guest")] [] [PyStr (str "ok")] Hwf).
Defined.

Lemma invalid_batch_leaves_any_filter_witness :
  (forall k, k ∈ [KNone; KStr (str "  "); KInt 7] ->
             blank_or_not_str (val_of_key k)) /\
  exists d,
    check_password_uniqueness Murmur3.hash
      (map val_of_key [KNone; KStr (str "  "); KInt 7])
      (mkBloomFilter 0 3 [])
      = (mkBloomFilter 0 3 [], Ok d) /\
    forall k, k ∈ [KNone; KStr (str "  "); KInt 7] ->
              dict_get d k = Some Invalid.
Proof.
  assert (H : forall k, k ∈ [KNone; KStr (str "  "); KInt 7] ->
                        blank_or_not_str (val_of_key k)).
  { intros k Hk. repeat (apply elem_of_cons in Hk; destruct Hk as [-> | Hk]);
      [exact I | reflexivity | exact I | inversion Hk]. }
  split; [exact H |].
  exact (invalid_batch_leaves_any_filter Murmur3.hash (mkBloomFilter 0 3 [])
           [KNone; KStr (str "  "); KInt 7] H).
Defined.

Lemma zero_size_filter_classify_raises_witness :
  size (mkBloomFilter 0 3 []) = 0 /\ 0 < num_hashes (mkBloomFilter 0 3 []) /\
  (forall k, k ∈ [KNone] -> blank_or_not_str (val_of_key k)) /\
  forallb isspace (str "guest") = false /\
  check_password_uniqueness Murmur3.hash
    (map val_of_key [KNone] ++ PyStr (str "guest") :: [PyNone])
    (mkBloomFilter 0 3 [])
    = (mkBloomFilter 0 3 [], Raise ZeroDivisionError).
Proof.
  assert (H1 : size (mkBloomFilter 0 3 []) = 0) by reflexivity.
  assert (H2 : 0 < num_hashes (mkBloomFilter 0 3 [])) by (simpl; lia).
  assert (H3 : forall k, k ∈ [KNone] -> blank_or_not_str (val_of_key k)).
  { intros k Hk. apply elem_of_cons in Hk. destruct Hk as [-> | Hk];
      [exact I | inversion Hk]. }
  assert (H4 : forallb isspace (str "guest") = false) by reflexivity.
  split; [exact H1 |]. split; [exact H2 |]. split; [exact H3 |].
  split; [exact H4 |].
  exact (zero_size_filter_classify_raises Murmur3.hash _ [KNone]
           (str "guest") [PyNone] H1 H2 H3 H4).
Defined.

Lemma no_hashes_filter_classify_witness :
  num_hashes (mkBloomFilter 1000 0 (replicate 1000 false)) <= 0 /\
  exists d,
    check_password_uniqueness Murmur3.hash
      (map val_of_key [KStr (str "guest"); KNone])
      (mkBloomFilter 1000 0 (replicate 1000 false))
      = (mkBloomFilter 1000 0 (replicate 1000 false), Ok d) /\
    forall k, k ∈ [KStr (str "guest"); KNone] ->
              dict_get d k = Some (known_status (val_of_key k)).
Proof.
  assert (H : num_hashes (mkBloomFilter 1000 0 (replicate 1000 false)) <= 0).
  { simpl. lia. }
  split; [exact H |].
  exact (no_hashes_filter_classify Murmur3.hash _
           [KStr (str "guest"); KNone] H).
Defined.

Lemma set_count_same_elements_witness :
  (forall k, k ∈ [KInt 1; KInt 2; KInt 1] <-> k ∈ [KInt 2; KInt 1]) /\
  set_count (map val_of_key [KInt 1; KInt 2; KInt 1])
    = set_count (map val_of_key [KInt 2; KInt 1]).
Proof.
  assert (H : forall k, k ∈ [KInt 1; KInt 2; KInt 1] <-> k ∈ [KInt 2; KInt 1]).
  { intros k. rewrite !elem_of_cons. tauto. }
  split; [exact H |].
  exact (set_count_same_elements _ _ H).
Defined.
